(* ===== verification/_CoqProject ===== *)
-Q . S2P
Prelude.v
JsObject.v
Hex.v
Credentials.v
Server.v
Registry.v
Routing.v
Scenario.v
Uniqueness.v
Sessions.v
Presence.v
Faults.v
Completion.v
Auth.v
Client.v
ClientProps.v
