(* ===== verification/Prelude.v ===== *)
(** * A verified model of the anonymous-chat relay

    This development models the socket.io chat relay of the repository
    (the server [src/server/server.js] and the browser client
    [src/client/script.js]) and proves what its code guarantees, and
    where it departs from the design in [spec.md].

    ** The program
    The server keeps two process-wide JavaScript objects,
    [onlineUsers] (socket id -> [{socketId, username}]) and [sessions]
    (token -> username), and a MongoDB collection [User] with a unique
    index on [username].  Each socket.io connection installs seven
    handlers: [register] and [login] are [async] and suspend at every
    [await] (MongoDB queries, bcrypt), so handlers of other sockets run
    between their halves; [auto_login], [logout], [public_message],
    [private_message] and [disconnect] run to completion.  Replies go to
    the socket ([socket.emit]), to everybody ([io.emit]) or to the room
    named by a socket id ([io.to(id).emit]).  The client keeps its
    identity, its session token and its private threads, and reacts to
    the server's events.

    ** Files (in dependency order) and what they model
    - [Prelude] (this file): the handler monad [M] (state passing, early
      return, JavaScript exceptions after which earlier effects stay)
      plugged into stdpp's monad classes, its weakest-precondition
      calculus [wp] with the walking tactic [wp_tac], the [chat] hint
      databases, and shared list lemmas.
    - [JsObject]: a plain JavaScript object as the code uses one: own
      properties in creation order, [o[k] = v], [delete o[k]], the read
      [o[k]] that falls back to [Object.prototype] (twelve member names),
      and [Object.values] (array-index keys first, ascending).
    - [Hex]: [crypto.randomBytes(24).toString("hex")] (server.js line
      101): encoder, decoder, round trip, length 48, never a prototype
      member name.
    - [Credentials]: bcrypt as the class [Hasher] ([hash]/[compare] with
      their laws) and the [User] collection as a [gmap] keyed by the
      unique [username] ([findOne], [create] with the duplicate-key
      error).
    - [Server]: the world record (open sockets [conns], [onlineUsers],
      [sessions], the collection, suspended continuations [pending], the
      [outbox] of events written to sockets, uncaught [faults]); one
      definition per handler of server.js lines 48-168 and per [await]
      continuation of [register]/[login] ([task], [resume]); [run]
      records an escaping exception; the labelled step relation [lstep]
      interleaves connections, disconnections, events and continuations
      in any order (spec section 5), and [reachable] is its closure from
      the initial world.
    - [Registry]: invariant I3 (keys of [onlineUsers] = open sockets, in
      connection order, each a socket.io id, each entry under its own id).
    - [Routing]: [public_message]/[private_message] (P3, P4, P6) and the
      ungated private message.
    - [Scenario]: concrete runs (spec section 8; two tabs; the login and
      register races) used as witnesses and counterexamples.
    - [Uniqueness]: I1/P1 on runs without [auto_login], and its failure
      with [auto_login].
    - [Sessions]: I2 and P5, and the prototype read of [sessions[token]].
    - [Presence]: P2 as an invariant of every reachable state (the last
      [online_users] list of each open socket shows the bound entries),
      and where the code departs from the spec (no list on connect,
      unbound entries listed after a logout).
    - [Faults]: the two races that end in an uncaught exception (a login
      resumed after its socket left, a register whose name was taken
      meanwhile), on reachable runs.
    - [Completion]: [register] and [login] run to completion: each
      answers its socket exactly once, with the reply and the state
      change of the branch the code takes.
    - [Auth]: bound names are registered users; [login] binds only with
      the password whose hash is stored.
    - [Client]: script.js as a state record (page variables and the DOM
      parts the code writes: [innerHTML] strings, [li] items, title,
      shown box, input, [localStorage], emitted events, alerts), one
      definition per listener, button and helper, and [act] for one
      action of the page.
    - [ClientProps]: the client invariant (private mode always has its
      conversation, so sending never throws), the online list a page
      shows (P2 on screen), self-echo, unread counting, the reload round
      trip, the two-tab interaction with the server, and the lemma that
      the server's events satisfy the client's assumption on socket ids.

    ** How the model corresponds to the code
    A handler is a term of [M world fault] built from [hget]/[hmodify]/
    [mthrow] exactly in the order the statements run; JavaScript reads
    are [JsObject.lookup], truthiness is [truthy]/[obj_truthy].  An
    [async] handler is cut at each [await]: the part before it runs in
    the event step and leaves a [task] holding the variables the rest
    uses; [resume] runs the rest with what the awaited call produced
    (an [input]: a salt, the insertion time, the 24 random bytes).  The
    client's listeners are terms of [M cstate cerror] in the same way.

    ** Bounds and inputs
    No fuel is used: every definition is structurally recursive.  The
    step relation quantifies over every input of an awaited call; the
    only restriction is that a token is drawn from exactly 24 bytes, as
    the code asks, and that a connecting id is a fresh socket.io id
    ([socket_id_ok], 20 URL-safe base64 characters: 120 random bits, so
    ids do not repeat).  Concrete runs use [Credentials.demo_hasher],
    whose digests are computable; every general theorem holds for any
    [Hasher].

    ** Not modelled
    Event payloads other than the string fields the page sends: the
    handlers destructure unchecked client JSON, and a missing payload or
    a non-string field (which reaches MongoDB and bcrypt) is outside the
    model (recorded as a finding).  HTTP/express/CORS setup and
    [server.listen] (I/O only, server.js lines 1-37 and 171-177), the MongoDB connection, bcrypt's internals
    (abstracted by [Hasher]), socket.io's transport (delivery of the
    [outbox] to the pages is taken in order and without loss), DOM
    rendering beyond the strings the client writes, and Unicode white
    space beyond 8-bit characters in [trim].
*)

From stdpp Require Export base list strings relations.
From Stdlib Require Export String Ascii.

Declare Scope chat_scope.
Delimit Scope chat_scope with chat.

(** ** The handler monad

    A handler reads and writes the server state, may return early, and
    may throw a JavaScript exception, after which the effects already
    performed persist (JavaScript has no rollback).  [res] is the
    completion of a handler, [M S E A] a handler over state [S] that can
    throw [E]. *)

Inductive res (E A : Type) : Type :=
| Ok (a : A)
| Throw (e : E).
Arguments Ok {E A} a.
Arguments Throw {E A} e.

Definition M (S E A : Type) : Type := S -> S * res E A.

(** The monad operations are stdpp's classes, so handlers are written
    with stdpp's notation [x ← m; k] and [m ;; k]. *)
#[export] Instance M_ret {S E} : MRet (M S E) := fun A a s => (s, Ok a).

#[export] Instance M_bind {S E} : MBind (M S E) := fun A B k m s =>
  match m s with
  | (s', Ok a) => k a s'
  | (s', Throw e) => (s', Throw e)
  end.

#[export] Instance M_throw {S E} : MThrow E (M S E) := fun A e s => (s, Throw e).

Definition hget {S E} : M S E S := fun s => (s, Ok s).

Definition hmodify {S E} (f : S -> S) : M S E unit := fun s => (f s, Ok tt).

(** Run a handler for its final state, whatever its completion. *)
Definition exec {S E A} (m : M S E A) (s : S) : S := fst (m s).

Create HintDb chat.
Create Rewrite HintDb chat_rw.

Section MonadLaws.
Context {S E : Type}.

Lemma M_bind_ret_l {A B} (a : A) (k : A -> M S E B) s :
  (mret a ≫= k) s = k a s.
Proof. reflexivity. Qed.

Lemma M_bind_assoc {A B C} (m : M S E A) (k : A -> M S E B) (h : B -> M S E C) s :
  ((m ≫= k) ≫= h) s = (m ≫= (fun a => k a ≫= h)) s.
Proof. cbv [mbind M_bind]. destruct (m s) as [s' [a|e]]; reflexivity. Qed.

Lemma M_bind_ret_r {A} (m : M S E A) s : (m ≫= mret) s = m s.
Proof. cbv [mbind M_bind mret M_ret]. destruct (m s) as [s' [a|e]]; reflexivity. Qed.

Lemma M_bind_throw {A B} (e : E) (k : A -> M S E B) s :
  ((mthrow e : M S E A) ≫= k) s = (s, Throw e).
Proof. reflexivity. Qed.

End MonadLaws.

#[export] Hint Rewrite @M_bind_ret_l @M_bind_assoc @M_bind_ret_r @M_bind_throw : chat_rw.

(** ** Shared tactics *)

Ltac invc H := inversion H; subst; clear H.

(** Unfold the monad plumbing of a handler application. *)
Ltac unfold_monad :=
  cbv [exec mbind M_bind mret M_ret mthrow M_throw hget hmodify] in *; cbn -[String.eqb] in *.

(** Case on the first [if]/[match] scrutinee of the goal, keeping its
    equation. *)
Ltac case_goal :=
  match goal with
  | |- context [match ?x with _ => _ end] =>
      let E := fresh "E" in destruct x eqn:E
  end.

(** ** String equality as the code's [===] *)

Lemma string_eqb_eq (a b : string) : String.eqb a b = true <-> a = b.
Proof. apply String.eqb_eq. Qed.

Lemma string_eqb_refl (a : string) : String.eqb a a = true.
Proof. apply String.eqb_refl. Qed.

Lemma string_eqb_neq (a b : string) : a <> b -> String.eqb a b = false.
Proof. intros H. apply String.eqb_neq. exact H. Qed.

#[export] Hint Rewrite string_eqb_refl : chat_rw.
#[export] Hint Resolve string_eqb_neq : chat.

(** ** Lists filtered by a boolean test, as the code's [filter]/[some] *)

Lemma NoDup_List_filter {A} (f : A -> bool) (l : list A) :
  NoDup l -> NoDup (List.filter f l).
Proof.
  induction 1 as [|x l Hx Hnd IH]; cbn; [constructor|].
  destruct (f x); [|exact IH]. constructor; [|exact IH].
  rewrite list_elem_of_In, filter_In. rewrite list_elem_of_In in Hx. tauto.
Qed.

#[export] Hint Resolve NoDup_List_filter : chat.

Lemma List_filter_none {A} (f : A -> bool) (l : list A) :
  (forall z, In z l -> f z = false) -> List.filter f l = [].
Proof.
  induction l as [|y l IH]; cbn; [done|]. intros Hf.
  rewrite (Hf y (or_introl eq_refl)). apply IH. auto.
Qed.

Lemma List_filter_perm {A} (f : A -> bool) (l1 l2 : list A) :
  l1 ≡ₚ l2 -> List.filter f l1 ≡ₚ List.filter f l2.
Proof.
  induction 1 as [|x l1 l2 _ IH|x y l|l1 l2 l3 _ IH1 _ IH2]; cbn.
  - done.
  - destruct (f x); [by apply perm_skip|exact IH].
  - destruct (f x), (f y); try done. apply perm_swap.
  - by rewrite IH1.
Qed.

Lemma Forall_nth_error {A} (P : A -> Prop) l n x :
  Forall P l -> nth_error l n = Some x -> P x.
Proof. intros H Hn. apply nth_error_In in Hn. exact (proj1 (List.Forall_forall _ _) H x Hn). Qed.

(** The members of a list equal to [x] (the sockets in room [x]). *)
Lemma filter_eqb_in (x : string) (l : list string) :
  NoDup l -> In x l -> List.filter (String.eqb x) l = [x].
Proof.
  induction 1 as [|y l Hy Hnd IH]; cbn; [done|].
  destruct (String.eqb_spec x y) as [<-|Hne].
  - intros _. f_equal. apply List_filter_none. intros z Hz.
    destruct (String.eqb_spec x z) as [<-|]; [|done].
    exfalso. apply Hy. by apply list_elem_of_In.
  - intros [->|Hin]; [done|]. by apply IH.
Qed.

Lemma filter_eqb_notin (x : string) (l : list string) :
  ~ In x l -> List.filter (String.eqb x) l = [].
Proof.
  intros Hx. apply List_filter_none. intros z Hz.
  destruct (String.eqb_spec x z) as [<-|]; [done|reflexivity].
Qed.

(** Reflexive-transitive closures keep an invariant. *)
Lemma rtc_invariant {A} (R : A -> A -> Prop) (P : A -> Prop) x y :
  (forall a b, P a -> R a b -> P b) -> P x -> rtc R x y -> P y.
Proof. intros Hstep Hx H. induction H; eauto. Qed.

(** ** Weakest preconditions of handlers

    [wp m Q QE s]: running [m] from [s] either returns [a] in a state
    satisfying [Q a], or throws [e] in a state satisfying [QE e].  The
    rules below follow the structure of the handler, so a property of a
    handler is proved by walking its code with [wp_tac]. *)

Definition wp {S E A} (m : M S E A) (Q : A -> S -> Prop) (QE : E -> S -> Prop)
  (s : S) : Prop :=
  match m s with
  | (s', Ok a) => Q a s'
  | (s', Throw e) => QE e s'
  end.

Section WpRules.
Context {S E : Type}.
Implicit Types (s : S).

Lemma wp_ret {A} (a : A) Q (QE : E -> S -> Prop) s : Q a s -> wp (mret a) Q QE s.
Proof. done. Qed.

Lemma wp_throw {A} (e : E) (Q : A -> S -> Prop) QE s : QE e s -> wp (mthrow e) Q QE s.
Proof. done. Qed.

Lemma wp_get Q (QE : E -> S -> Prop) s : Q s s -> wp hget Q QE s.
Proof. done. Qed.

Lemma wp_modify f Q (QE : E -> S -> Prop) s : Q tt (f s) -> wp (hmodify f) Q QE s.
Proof. done. Qed.

Lemma wp_bind {A B} (m : M S E A) (k : A -> M S E B) Q QE s :
  wp m (fun a s' => wp (k a) Q QE s') QE s -> wp (m ≫= k) Q QE s.
Proof. unfold wp. cbv [mbind M_bind]. by destruct (m s) as [s' [a|e]]. Qed.

Lemma wp_mono {A} (m : M S E A) (Q1 Q2 : A -> S -> Prop) (QE1 QE2 : E -> S -> Prop) s :
  wp m Q1 QE1 s -> (forall a s', Q1 a s' -> Q2 a s') -> (forall e s', QE1 e s' -> QE2 e s') ->
  wp m Q2 QE2 s.
Proof. unfold wp. destruct (m s) as [s' [a|e]]; auto. Qed.

(** The final state of a handler, when the property ignores the
    completion. *)
Lemma wp_exec {A} (m : M S E A) (P : S -> Prop) s :
  wp m (fun _ => P) (fun _ => P) s -> P (exec m s).
Proof. unfold wp, exec. by destruct (m s) as [s' [a|e]]. Qed.

(** A handler whose every throwing branch is unreachable completes. *)
Lemma wp_no_throw {A} (m : M S E A) s :
  wp m (fun _ _ => True) (fun _ _ => False) s -> exists s' a, m s = (s', Ok a).
Proof. unfold wp. destruct (m s) as [s' [a|e]]; [eauto|done]. Qed.

End WpRules.

(** Walk a handler: one rule per monadic construct, a case split on
    each [if] and [match], and [unf] to unfold the named handlers. *)
Ltac wp_step unf :=
  lazymatch goal with
  | |- wp (mbind _ _) _ _ _ => apply wp_bind
  | |- wp (mret _) _ _ _ => apply wp_ret
  | |- wp (mthrow _) _ _ _ => apply wp_throw
  | |- wp hget _ _ _ => apply wp_get
  | |- wp (hmodify _) _ _ _ => apply wp_modify
  | |- wp (match ?x with _ => _ end) _ _ _ => let E := fresh "E" in destruct x eqn:E
  | |- wp _ _ _ _ => progress unf
  | |- _ => progress cbv beta iota
  end.

Ltac wp_tac unf := repeat (wp_step unf; try progress cbv beta iota).
