(* ===== verification/JsObject.v ===== *)
(** * Plain JavaScript objects used as dictionaries

    The server stores its registries in object literals ([let
    onlineUsers = {}], [let sessions = {}]) and uses the language's
    property operations on them: [o[k] = v], [o[k]] (a read that falls
    back to [Object.prototype]), [delete o[k]] and [Object.values(o)].
    This file models those operations as the ECMAScript specification
    defines them for ordinary objects whose prototype is
    [Object.prototype]:
    - own properties are kept in creation order; assigning to an
      existing key keeps its position;
    - [Object.values] lists array-index keys (canonical decimal strings
      below 2^32 - 1) first in ascending numeric order, then the other
      keys in creation order ([OrdinaryOwnPropertyKeys]);
    - a read of a key that is not an own property returns the inherited
      member of [Object.prototype] when there is one ([o["constructor"]]
      is the [Object] function), [undefined] otherwise.
    Writes only ever use keys that are not [Object.prototype] members
    (socket ids and hex tokens), so [o[k] = v] always creates or updates
    an own data property. *)

From S2P Require Import Prelude.
From Stdlib Require Import NArith.

Module JsObject.

(** An object's own enumerable properties, in creation order. *)
Definition obj (V : Type) : Type := list (string * V).

Definition empty {V} : obj V := [].

Definition keys {V} (o : obj V) : list string := map fst o.

(** The own property [k], if any. *)
Fixpoint get_own {V} (k : string) (o : obj V) : option V :=
  match o with
  | [] => None
  | (k', v) :: o' => if String.eqb k k' then Some v else get_own k o'
  end.

(** [o[k] = v]: update in place, or create at the end. *)
Fixpoint set {V} (k : string) (v : V) (o : obj V) : obj V :=
  match o with
  | [] => [(k, v)]
  | (k', v') :: o' =>
      if String.eqb k k' then (k', v) :: o' else (k', v') :: set k v o'
  end.

(** [delete o[k]]: removes the own property, a no-op when absent. *)
Definition delete {V} (k : string) (o : obj V) : obj V :=
  List.filter (fun kv => negb (String.eqb k (fst kv))) o.

(** The members of [Object.prototype] in Node.js. *)
Definition proto_members : list string :=
  ["constructor"; "__defineGetter__"; "__defineSetter__"; "hasOwnProperty";
   "__lookupGetter__"; "__lookupSetter__"; "isPrototypeOf";
   "propertyIsEnumerable"; "toString"; "valueOf"; "__proto__";
   "toLocaleString"]%string.

Definition is_proto_member (k : string) : bool :=
  existsb (String.eqb k) proto_members.

(** The result of the read [o[k]]. *)
Inductive prop (V : Type) : Type :=
| Own (v : V)
| Inherited (name : string)
| Absent.
Arguments Own {V} v.
Arguments Inherited {V} name.
Arguments Absent {V}.

Definition lookup {V} (k : string) (o : obj V) : prop V :=
  match get_own k o with
  | Some v => Own v
  | None => if is_proto_member k then Inherited k else Absent
  end.

(** ** Array indices and [Object.values] order *)

Definition digit_value (c : ascii) : option N :=
  let n := N.of_nat (nat_of_ascii c) in
  if (48 <=? n)%N && (n <=? 57)%N then Some (n - 48)%N else None.

(** Decimal value of a non-empty digit string read from the left. *)
Fixpoint digits_value (acc : N) (s : string) : option N :=
  match s with
  | EmptyString => Some acc
  | String c s' =>
      match digit_value c with
      | Some d => digits_value (10 * acc + d)%N s'
      | None => None
      end
  end.

(** An array index is the canonical decimal form of an integer below
    2^32 - 1: no sign, no leading zero unless it is ["0"]. *)
Definition array_index (s : string) : option N :=
  match s with
  | EmptyString => None
  | String c rest =>
      if Ascii.eqb c "0"%char then
        match rest with EmptyString => Some 0%N | _ => None end
      else
        match digits_value 0 s with
        | Some n => if (n <=? 4294967294)%N then Some n else None
        | None => None
        end
  end.

Definition is_array_index (s : string) : bool :=
  match array_index s with Some _ => true | None => false end.

Fixpoint insert_by_index {V} (n : N) (v : V) (l : list (N * V)) : list (N * V) :=
  match l with
  | [] => [(n, v)]
  | (m, w) :: l' =>
      if (n <? m)%N then (n, v) :: l else (m, w) :: insert_by_index n v l'
  end.

(** Array-index keys with their numeric values, in ascending order. *)
Fixpoint index_part {V} (o : obj V) : list (N * V) :=
  match o with
  | [] => []
  | (k, v) :: o' =>
      match array_index k with
      | Some n => insert_by_index n v (index_part o')
      | None => index_part o'
      end
  end.

(** [Object.values(o)]. *)
Definition values {V} (o : obj V) : list V :=
  map snd (index_part o)
  ++ map snd (List.filter (fun kv => negb (is_array_index (fst kv))) o).

(** ** Laws of the property operations *)

Section Laws.
Context {V : Type}.
Implicit Types (o : obj V) (k : string) (v : V).

Lemma get_own_set_eq k v o : get_own k (set k v o) = Some v.
Proof.
  induction o as [|[k' v'] o IH]; cbn; [by rewrite String.eqb_refl|].
  destruct (String.eqb_spec k k') as [->|]; cbn; [by rewrite String.eqb_refl|].
  destruct (String.eqb_spec k k'); [congruence|exact IH].
Qed.

Lemma get_own_set_ne k k' v o :
  k <> k' -> get_own k' (set k v o) = get_own k' o.
Proof.
  intros Hne. induction o as [|[k0 v0] o IH]; cbn.
  - destruct (String.eqb_spec k' k); [congruence|done].
  - destruct (String.eqb_spec k k0) as [->|]; cbn.
    + destruct (String.eqb_spec k' k0); [congruence|done].
    + by rewrite IH.
Qed.

Lemma get_own_delete_eq k o : get_own k (delete k o) = None.
Proof.
  unfold delete.
  induction o as [|[k' v'] o IH]; cbn; [done|].
  destruct (String.eqb_spec k k'); cbn; [exact IH|].
  destruct (String.eqb_spec k k'); [congruence|exact IH].
Qed.

Lemma get_own_delete_ne k k' o :
  k <> k' -> get_own k' (delete k o) = get_own k' o.
Proof.
  intros Hne. unfold delete. induction o as [|[k0 v0] o IH]; cbn; [done|].
  destruct (String.eqb_spec k k0) as [->|]; cbn.
  - destruct (String.eqb_spec k' k0); [congruence|exact IH].
  - by rewrite IH.
Qed.

Lemma get_own_In k v o : get_own k o = Some v -> In (k, v) o.
Proof.
  induction o as [|[k' v'] o IH]; cbn; [done|].
  destruct (String.eqb_spec k k') as [->|]; [intros [= ->]; by left|].
  intros H. right. by apply IH.
Qed.

Lemma get_own_None_keys k o : get_own k o = None <-> ~ In k (keys o).
Proof.
  unfold keys in *.
  induction o as [|[k' v'] o IH]; cbn; [tauto|].
  destruct (String.eqb_spec k k') as [->|]; [split; [done|tauto]|].
  rewrite IH. intuition congruence.
Qed.

Lemma keys_set_in k v o : In k (keys o) -> keys (set k v o) = keys o.
Proof.
  unfold keys in *.
  induction o as [|[k' v'] o IH]; cbn; [done|].
  destruct (String.eqb_spec k k'); cbn; [done|].
  intros [->|Hin]; [congruence|]. by rewrite IH.
Qed.

Lemma keys_set_notin k v o : ~ In k (keys o) -> keys (set k v o) = keys o ++ [k].
Proof.
  unfold keys in *.
  induction o as [|[k' v'] o IH]; cbn; [done|].
  destruct (String.eqb_spec k k'); cbn; [intuition congruence|].
  intros Hn. rewrite IH; [done|tauto].
Qed.

Lemma keys_delete k o :
  keys (delete k o) = List.filter (fun k' => negb (String.eqb k k')) (keys o).
Proof.
  unfold keys in *.
  unfold delete.
  induction o as [|[k' v'] o IH]; cbn; [done|].
  destruct (String.eqb k k'); cbn; by rewrite IH.
Qed.

Lemma keys_set_NoDup k v o : NoDup (keys o) -> NoDup (keys (set k v o)).
Proof.
  intros Hnd. destruct (in_dec string_dec k (keys o)) as [Hin|Hin].
  - by rewrite keys_set_in.
  - rewrite keys_set_notin by done. apply NoDup_app. split; [done|].
    split; [|apply NoDup_singleton]. intros x Hx Hk%list_elem_of_singleton; subst x.
    apply Hin. by apply list_elem_of_In.
Qed.

Lemma keys_delete_NoDup k o : NoDup (keys o) -> NoDup (keys (delete k o)).
Proof. intros Hnd. rewrite keys_delete. by apply NoDup_List_filter. Qed.

(** Reading a deleted key reaches the prototype. *)
Lemma lookup_delete_eq k o :
  lookup k (delete k o) = if is_proto_member k then Inherited k else Absent.
Proof. unfold lookup. by rewrite get_own_delete_eq. Qed.

Lemma lookup_Own k v o : lookup k o = Own v -> get_own k o = Some v.
Proof. unfold lookup. destruct (get_own k o); [congruence|]. by destruct (is_proto_member k). Qed.

Lemma lookup_Absent k o : lookup k o = Absent -> get_own k o = None.
Proof. unfold lookup. by destruct (get_own k o). Qed.

Lemma lookup_not_proto k o :
  is_proto_member k = false ->
  lookup k o = match get_own k o with Some v => Own v | None => Absent end.
Proof. unfold lookup. intros ->. by destruct (get_own k o). Qed.

Lemma lookup_set_eq k v o : lookup k (set k v o) = Own v.
Proof. unfold lookup. by rewrite get_own_set_eq. Qed.

Lemma index_part_no_index o :
  Forall (fun k => is_array_index k = false) (keys o) -> index_part o = [].
Proof.
  induction o as [|[k v] o IH]; cbn; [done|].
  intros [Hk Ho]%Forall_cons. unfold is_array_index in Hk.
  destruct (array_index k); [done|]. by apply IH.
Qed.

Lemma filter_no_index o :
  Forall (fun k => is_array_index k = false) (keys o) ->
  List.filter (fun kv => negb (is_array_index (fst kv))) o = o.
Proof.
  induction o as [|[k v] o IH]; cbn; [done|].
  intros [Hk Ho]%Forall_cons. rewrite Hk. cbn. by rewrite IH.
Qed.

Lemma insert_by_index_In n v (l : list (N * V)) x :
  In x (map snd (insert_by_index n v l)) <-> v = x \/ In x (map snd l).
Proof.
  induction l as [|[m w] l IH]; cbn; [tauto|].
  destruct (n <? m)%N; cbn; [tauto|]. rewrite IH. tauto.
Qed.

Lemma values_parts_In o x :
  In x (map snd (index_part o)) \/
  In x (map snd (List.filter (fun kv => negb (is_array_index (fst kv))) o))
  <-> In x (map snd o).
Proof.
  induction o as [|[k v] o IH]; cbn; [tauto|]. unfold is_array_index at 1.
  destruct (array_index k); cbn; rewrite <- IH; [rewrite insert_by_index_In|]; tauto.
Qed.

(** [Object.values] lists exactly the values of the own properties. *)
Lemma values_In o x : In x (values o) <-> In x (map snd o).
Proof. unfold values. rewrite in_app_iff. apply values_parts_In. Qed.

Lemma get_own_values k v o : get_own k o = Some v -> In v (values o).
Proof.
  intros H%get_own_In. apply values_In. apply (in_map snd) in H. exact H.
Qed.

Lemma insert_by_index_perm n v (l : list (N * V)) :
  map snd (insert_by_index n v l) ≡ₚ v :: map snd l.
Proof.
  induction l as [|[m w] l IH]; cbn; [done|].
  destruct (n <? m)%N; cbn; [done|]. rewrite IH. apply perm_swap.
Qed.

(** [Object.values] is a reordering of the own values. *)
Lemma values_perm o : values o ≡ₚ map snd o.
Proof.
  induction o as [|[k v] o IH]; [done|]. unfold values in *.
  cbn [index_part List.filter map fst snd].
  destruct (array_index k) eqn:Ek.
  - assert (Hi : is_array_index k = true) by (unfold is_array_index; by rewrite Ek).
    rewrite Hi. cbn [negb]. rewrite insert_by_index_perm. cbn. by rewrite IH.
  - assert (Hi : is_array_index k = false) by (unfold is_array_index; by rewrite Ek).
    rewrite Hi. cbn [negb map snd]. rewrite <- Permutation_middle. by rewrite IH.
Qed.

(** A second assignment to the same key overwrites the first. *)
Lemma set_set k v v' o : set k v (set k v' o) = set k v o.
Proof.
  induction o as [|[k' w] o IH]; cbn; [by rewrite String.eqb_refl|].
  destruct (String.eqb_spec k k') as [->|]; cbn; [by rewrite String.eqb_refl|].
  destruct (String.eqb_spec k k'); [congruence|]. by rewrite IH.
Qed.

(** Creating a new key appends it. *)
Lemma set_notin_app k v o : ~ In k (keys o) -> set k v o = o ++ [(k, v)].
Proof.
  unfold keys. induction o as [|[k' v'] o IH]; cbn; [done|]. intros Hk.
  destruct (String.eqb_spec k k'); [subst; tauto|]. rewrite IH; [done|tauto].
Qed.

Lemma Forall_set (P : string * V -> Prop) k v o :
  Forall P o -> P (k, v) -> Forall P (set k v o).
Proof.
  induction 1 as [|[k' v'] o Hkv Ho IH]; cbn; intros Hp; [by constructor|].
  destruct (String.eqb_spec k k') as [<-|]; constructor; auto.
Qed.

Lemma Forall_delete (P : string * V -> Prop) k o : Forall P o -> Forall P (delete k o).
Proof. intros H. apply List.Forall_forall. intros x [Hx _]%filter_In. by eapply List.Forall_forall. Qed.

Lemma values_Forall (P : V -> Prop) o : Forall (fun kv => P kv.2) o -> Forall P (values o).
Proof.
  intros H. apply List.Forall_forall. intros x Hx%values_In.
  apply in_map_iff in Hx as ([k v] & <- & Hin). exact (proj1 (List.Forall_forall _ _) H _ Hin).
Qed.

Lemma get_own_Forall (P : string * V -> Prop) k v o :
  Forall P o -> get_own k o = Some v -> P (k, v).
Proof. intros H Hk%get_own_In. exact (proj1 (List.Forall_forall _ _) H _ Hk). Qed.

End Laws.

#[export] Hint Rewrite @get_own_set_eq @get_own_delete_eq @lookup_set_eq
  @lookup_delete_eq : chat_rw.
#[export] Hint Resolve keys_set_NoDup keys_delete_NoDup : chat.

End JsObject.
