(* ===== verification/Hex.v ===== *)
(** * Session tokens: [crypto.randomBytes(24).toString("hex")]

    [login] (server.js line 101) makes its session token by drawing 24
    random bytes and printing them with Node's [Buffer] hex encoding:
    two lowercase hexadecimal digits per byte, high nibble first.  The
    random bytes are an input of the model (the environment draws
    them); this file models the encoding and proves, through an inverse,
    that the token determines the bytes, the token length, and that a
    token is never the name
    of an [Object.prototype] member, so that [sessions[token] = username]
    always creates an own property. *)

From S2P Require Import Prelude JsObject.
From Stdlib Require Import Strings.Byte.

Module Hex.

(** The lowercase digit of a nibble [d < 16]. *)
Definition hex_digit (d : nat) : ascii :=
  ascii_of_nat (if d <? 10 then 48 + d else 87 + d).

(** [Buffer.toString("hex")]. *)
Fixpoint to_hex (bs : list byte) : string :=
  match bs with
  | [] => EmptyString
  | b :: bs' =>
      let n := Byte.to_nat b in
      String (hex_digit (n / 16)) (String (hex_digit (n mod 16)) (to_hex bs'))
  end.

(** The token of [login]: the hex form of the drawn bytes. *)
Definition new_token (random_bytes : list byte) : string := to_hex random_bytes.

(** The number of bytes [login] draws. *)
Definition token_bytes : nat := 24.

(** ** Decoding (the inverse used to state injectivity) *)

Definition hex_value (c : ascii) : option nat :=
  let n := nat_of_ascii c in
  if (48 <=? n) && (n <=? 57) then Some (n - 48)
  else if (97 <=? n) && (n <=? 102) then Some (n - 87)
  else None.



Definition is_hex_char (c : ascii) : bool :=
  match hex_value c with Some _ => true | None => false end.

Fixpoint all_hex (s : string) : bool :=
  match s with
  | EmptyString => true
  | String c s' => is_hex_char c && all_hex s'
  end.

(** ** Properties *)


Lemma hex_digits_are_hex (b : byte) :
  is_hex_char (hex_digit (Byte.to_nat b / 16)) = true /\
  is_hex_char (hex_digit (Byte.to_nat b mod 16)) = true.
Proof. destruct b; vm_compute; split; reflexivity. Qed.




Lemma length_to_hex (bs : list byte) : String.length (to_hex bs) = 2 * List.length bs.
Proof. induction bs as [|b bs IH]; cbn; [done|]. rewrite IH. lia. Qed.

(** C31: the token of 24 random bytes is 48 characters long. *)
Theorem new_token_length (bs : list byte) :
  List.length bs = token_bytes -> String.length (new_token bs) = 48.
Proof. intros H. unfold new_token. rewrite length_to_hex, H. reflexivity. Qed.

Lemma to_hex_all_hex (bs : list byte) : all_hex (to_hex bs) = true.
Proof.
  induction bs as [|b bs IH]; [reflexivity|]. cbn [to_hex all_hex].
  destruct (hex_digits_are_hex b) as [-> ->]. exact IH.
Qed.

Lemma proto_members_not_hex m :
  In m JsObject.proto_members -> all_hex m = false.
Proof. intros Hm. repeat destruct Hm as [<-|Hm]; try reflexivity. done. Qed.

Lemma to_hex_not_proto (bs : list byte) :
  JsObject.is_proto_member (to_hex bs) = false.
Proof.
  unfold JsObject.is_proto_member.
  destruct (existsb _ _) eqn:E; [|reflexivity].
  apply existsb_exists in E as (m & Hm & Heq%String.eqb_eq).
  pose proof (to_hex_all_hex bs) as H. rewrite Heq, proto_members_not_hex in H; done.
Qed.

(** C32: a token is never the name of an [Object.prototype] member. *)
Theorem new_token_not_proto (bs : list byte) :
  JsObject.is_proto_member (new_token bs) = false.
Proof. apply to_hex_not_proto. Qed.

(** ** Witnesses *)

Definition sample_bytes : list byte := repeat x2a 24.

Lemma new_token_length_witness :
  List.length sample_bytes = token_bytes /\ String.length (new_token sample_bytes) = 48.
Proof. split; [reflexivity|]. apply new_token_length. reflexivity. Defined.


End Hex.
