(* ===== verification/Credentials.v ===== *)
(** * The external collaborators: bcrypt and the MongoDB [User] collection

    The server reaches two libraries from its [register] and [login]
    handlers: bcrypt ([bcrypt.hash(password, 10)], [bcrypt.compare]) and
    the mongoose model [User] ([User.findOne], [User.create]).  Neither is
    code of the repository; they are stated here as interfaces with the
    laws the server relies on:
    - [Hasher]: a salted one-way hash; [compare] accepts exactly the
      hashes of the password (the idealised collision freedom that makes
      bcrypt a password check);
    - the collection as a [gmap] keyed by [username] (the schema's
      [unique: true] index): [find_one] reads it, [create_user] inserts
      or fails with MongoDB's duplicate-key error E11000. *)

From S2P Require Import Prelude.
From stdpp Require Import gmap.
From Stdlib Require Import ZArith.

Module Credentials.

(** ** bcrypt *)

Class Hasher := {
  salt : Type;
  (** a salt is always available (bcrypt draws one) *)
  fresh_salt : salt;
  hash : string -> salt -> string;
  compare : string -> string -> bool;
  compare_hash : forall p s, compare p (hash p s) = true;
  compare_sound : forall p h, compare p h = true -> exists s, h = hash p s
}.

(** A hasher whose digests are computable, used by the concrete runs
    of the development (the witnesses and the scenario). *)
Definition demo_hash (p : string) (_ : unit) : string := ("$2b$10$" ++ p)%string.
Definition demo_compare (p h : string) : bool := String.eqb h (demo_hash p tt).

Lemma demo_compare_hash p s : demo_compare p (demo_hash p s) = true.
Proof. destruct s. apply String.eqb_refl. Qed.

Lemma demo_compare_sound p h : demo_compare p h = true -> exists s, h = demo_hash p s.
Proof. intros H%String.eqb_eq. by exists tt. Qed.

Definition demo_hasher : Hasher := {|
  salt := unit;
  fresh_salt := tt;
  hash := demo_hash;
  compare := demo_compare;
  compare_hash := demo_compare_hash;
  compare_sound := demo_compare_sound
|}.

(** ** The [User] collection (server.js lines 31-37) *)

Record user := mkUser {
  username : string;
  passwordHash : string;
  createdAt : Z
}.

(** The collection, keyed by the unique [username]. *)
Abbreviation users := (gmap string user).

Inductive db_error :=
| DuplicateKey (key : string).

(** [User.findOne({ username })]. *)
Definition find_one (db : users) (u : string) : option user := db !! u.

(** [User.create({ username, passwordHash })]; [createdAt] defaults to
    the insertion time [now]. *)
Definition create_user (db : users) (u h : string) (now : Z)
  : db_error + users :=
  match db !! u with
  | Some _ => inl (DuplicateKey u)
  | None => inr (<[u := mkUser u h now]> db)
  end.

(** Every stored record is filed under its own username. *)
Definition keyed_by_username (db : users) : Prop :=
  forall k r, db !! k = Some r -> username r = k.

Lemma create_user_ok db u h now db' :
  create_user db u h now = inr db' ->
  db !! u = None /\ db' = <[u := mkUser u h now]> db.
Proof. unfold create_user. destruct (db !! u); intros [=]; auto. Qed.

Lemma create_user_dup db u h now :
  is_Some (db !! u) -> create_user db u h now = inl (DuplicateKey u).
Proof. unfold create_user. by intros [r ->]. Qed.

Lemma create_user_err db u h now e :
  create_user db u h now = inl e -> e = DuplicateKey u /\ is_Some (db !! u).
Proof. unfold create_user. destruct (db !! u); intros [=]; eauto. Qed.

Lemma create_user_keyed db u h now db' :
  keyed_by_username db -> create_user db u h now = inr db' ->
  keyed_by_username db'.
Proof.
  intros Hk [_ ->]%create_user_ok k r.
  rewrite lookup_insert. case_decide as Hku; [intros [= <-]; done|].
  apply Hk.
Qed.

(** The collection only grows. *)
Lemma create_user_mono db u h now db' k r :
  create_user db u h now = inr db' -> db !! k = Some r -> db' !! k = Some r.
Proof.
  intros [Hnone ->]%create_user_ok Hk.
  rewrite lookup_insert_ne; [done|]. intros ->. congruence.
Qed.

End Credentials.
