(* ===== verification/Server.v ===== *)
(** * The server: world, handlers, [await] continuations, step relation

    [src/server/server.js] lines 42-168.  The world holds the two
    process-wide objects ([onlineUsers], [sessions]), the [User]
    collection, and what the runtime adds around the code: the sockets
    the transport has open ([conns], in connection order), the
    continuations of [async] handlers suspended at an [await]
    ([pending]), the events written to sockets ([outbox]), and the
    rejections no code catches ([faults]).

    Each handler is a computation of the handler monad of [Prelude] over
    the world; a [Throw] is a JavaScript exception, after which the
    effects already done stay.  [register] and [login] are cut at their
    [await]s: the handler runs up to the first [await] and leaves a
    [task]; the task's continuation runs later, in any interleaving with
    other sockets, with the value the awaited call produced (the salt
    bcrypt draws, the insertion time, the 24 random bytes of the
    token). *)

From S2P Require Import Prelude JsObject Hex Credentials.
From stdpp Require Import gmap.
From Stdlib Require Import ZArith Strings.Byte.

Module Server.

(** ** Data *)

(** What the code stores as a username: [null] (line 53), a string
    (lines 102-104), or what [sessions[token]] returns for a key of
    [Object.prototype] (line 114): a built-in function or object;
    [undefined] is what a missing property reads as. *)
Inductive uval :=
| UUndef
| UNull
| UStr (s : string)
| UProto (name : string).

(** JavaScript truthiness of a [uval]. *)
Definition truthy (v : uval) : bool :=
  match v with
  | UUndef | UNull => false
  | UStr s => negb (String.eqb s "")
  | UProto _ => true
  end.

(** [v === s] for a string [s]. *)
Definition strict_eq_str (v : uval) (s : string) : bool :=
  match v with UStr t => String.eqb t s | _ => false end.

(** The values of [onlineUsers]: [{ socketId, username }] (line 51). *)
Record entry := mkEntry { socketId : string; username : uval }.

(** Server-to-client events. *)
Inductive sevent :=
| EvAuthError (msg : string)
| EvRegisterSuccess (msg : string)
| EvLoginSuccess (username : uval) (token : string)
| EvLogoutSuccess
| EvOnlineUsers (users : list entry)
| EvPublicMessage (from : uval) (message : string)
| EvPrivateMessage (from : uval) (message : string) (socketId : string).

(** Client-to-server events with their payloads, as the page of
    script.js sends them: every field a string.  The handlers
    destructure whatever JSON a client sends without checking it
    (lines 59, 80, 150): a missing payload throws, and non-string fields
    reach [User.findOne] and bcrypt.  Those payloads are outside this
    model; the properties are about clients that send what the page
    sends. *)
Inductive cevent :=
| Register (username password : string)
| Login (username password : string)
| AutoLogin (token : string)
| Logout (token : string)
| PublicMessage (msg : string)
| PrivateMessage (toSocketId message : string).

(** Exceptions that escape a handler: assigning [.username] on the
    [undefined] entry of a socket that has gone (line 104), and a
    rejected [User.create] (line 72). *)
Inductive fault :=
| TypeError (sid : string)
| DbRejected (sid : string) (e : Credentials.db_error).

(** A handler suspended at an [await], with the variables its
    continuation uses. *)
Inductive task :=
| RegisterAfterFind (sid u p : string)
| RegisterAfterHash (sid u p : string)
| RegisterAfterCreate (sid u h : string)
| LoginAfterFind (sid u p : string)
| LoginAfterCompare (sid u p h : string).

Definition task_sid (t : task) : string :=
  match t with
  | RegisterAfterFind sid _ _ | RegisterAfterHash sid _ _
  | RegisterAfterCreate sid _ _ | LoginAfterFind sid _ _
  | LoginAfterCompare sid _ _ _ => sid
  end.

Record world := mkWorld {
  conns : list string;
  onlineUsers : JsObject.obj entry;
  sessions : JsObject.obj string;
  db : Credentials.users;
  pending : list task;
  outbox : list (string * sevent);
  faults : list fault
}.

Definition set_conns (f : list string -> list string) (w : world) : world :=
  mkWorld (f (conns w)) (onlineUsers w) (sessions w) (db w) (pending w) (outbox w) (faults w).
Definition set_onlineUsers (f : JsObject.obj entry -> JsObject.obj entry) (w : world) : world :=
  mkWorld (conns w) (f (onlineUsers w)) (sessions w) (db w) (pending w) (outbox w) (faults w).
Definition set_sessions (f : JsObject.obj string -> JsObject.obj string) (w : world) : world :=
  mkWorld (conns w) (onlineUsers w) (f (sessions w)) (db w) (pending w) (outbox w) (faults w).
Definition set_db (d : Credentials.users) (w : world) : world :=
  mkWorld (conns w) (onlineUsers w) (sessions w) d (pending w) (outbox w) (faults w).
Definition set_pending (f : list task -> list task) (w : world) : world :=
  mkWorld (conns w) (onlineUsers w) (sessions w) (db w) (f (pending w)) (outbox w) (faults w).
Definition set_outbox (f : list (string * sevent) -> list (string * sevent)) (w : world) : world :=
  mkWorld (conns w) (onlineUsers w) (sessions w) (db w) (pending w) (f (outbox w)) (faults w).
Definition set_faults (f : list fault -> list fault) (w : world) : world :=
  mkWorld (conns w) (onlineUsers w) (sessions w) (db w) (pending w) (outbox w) (f (faults w)).

Abbreviation H := (M world fault).

(** ** Runtime primitives *)

Definition is_live (sid : string) (w : world) : bool := existsb (String.eqb sid) (conns w).

(** [socket.emit(ev)]: written only while the socket is connected. *)
Definition socket_emit (sid : string) (ev : sevent) : H unit :=
  w ← hget;
  if is_live sid w then hmodify (set_outbox (fun o => o ++ [(sid, ev)])) else mret tt.

(** [io.emit(ev)]: one copy per connected socket. *)
Definition io_emit (ev : sevent) : H unit :=
  hmodify (fun w => set_outbox (fun o => o ++ map (fun c => (c, ev)) (conns w)) w).

(** [io.to(room).emit(ev)]: the only rooms are the sockets' own ids. *)
Definition io_to_emit (room : string) (ev : sevent) : H unit :=
  hmodify (fun w =>
    set_outbox (fun o => o ++ map (fun c => (c, ev)) (List.filter (String.eqb room) (conns w))) w).

(** An [await]: the rest of the handler becomes a pending task. *)
Definition suspend (t : task) : H unit := hmodify (set_pending (fun p => p ++ [t])).

(** [io.emit("online_users", Object.values(onlineUsers))]. *)
Definition broadcast_presence : H unit :=
  w ← hget; io_emit (EvOnlineUsers (JsObject.values (onlineUsers w))).

(** [onlineUsers[sid].username = v] (lines 104, 117, 128): updates the
    entry; on [undefined] it throws [TypeError]. *)
Definition bind_username (sid : string) (v : uval) : H unit :=
  w ← hget;
  match JsObject.lookup sid (onlineUsers w) with
  | JsObject.Own e => hmodify (set_onlineUsers (JsObject.set sid (mkEntry (socketId e) v)))
  | JsObject.Inherited _ => mret tt
  | JsObject.Absent => mthrow (TypeError sid)
  end.

(** The common tail of [login] (lines 104-107) and [auto_login]
    (lines 117-119). *)
Definition finish_login (sid : string) (v : uval) (token : string) : H unit :=
  bind_username sid v ;;
  socket_emit sid (EvLoginSuccess v token) ;;
  broadcast_presence.

(** [!s] for a string payload. *)
Definition nonempty (s : string) : bool := negb (String.eqb s "").

(** Truthiness of the object read [o[k]]: entries and built-ins are
    objects, hence truthy; a missing property is [undefined]. *)
Definition obj_truthy {V} (p : JsObject.prop V) : bool :=
  match p with JsObject.Absent => false | _ => true end.

(** [o[k].username] for the read of an entry. *)
Definition prop_username (p : JsObject.prop entry) : uval :=
  match p with JsObject.Own e => username e | _ => UUndef end.

(** [sessions[token]] as a username value. *)
Definition session_username (p : JsObject.prop string) : uval :=
  match p with
  | JsObject.Own s => UStr s
  | JsObject.Inherited n => UProto n
  | JsObject.Absent => UUndef
  end.

(** ** Handlers (server.js lines 48-168) *)

(** Lines 48-54: a new connection gets an unbound entry. *)
Definition on_connection (sid : string) : H unit :=
  hmodify (set_onlineUsers (JsObject.set sid (mkEntry sid UNull))).

(** Lines 59-65: validation, then [await User.findOne]. *)
Definition on_register (sid u p : string) : H unit :=
  if negb (nonempty u) || negb (nonempty p)
  then socket_emit sid (EvAuthError "Username and password required")
  else suspend (RegisterAfterFind sid u p).

(** Lines 66-71: after [findOne]; then [await bcrypt.hash]. *)
Definition register_after_findOne (sid u p : string) : H unit :=
  w ← hget;
  match Credentials.find_one (db w) u with
  | Some _ => socket_emit sid (EvAuthError "Username already exists")
  | None => suspend (RegisterAfterHash sid u p)
  end.

(** Lines 71-72: with the digest; then [await User.create]. *)
Definition register_after_hash (sid u passwordHash : string) : H unit :=
  suspend (RegisterAfterCreate sid u passwordHash).

(** Lines 72-74: the insertion; a duplicate key rejects the [await],
    and nothing catches it. *)
Definition register_after_create (sid u h : string) (now : Z) : H unit :=
  w ← hget;
  match Credentials.create_user (db w) u h now with
  | inl e => mthrow (DbRejected sid e)
  | inr d => hmodify (set_db d) ;; socket_emit sid (EvRegisterSuccess "Registration successful")
  end.

(** Lines 80-81: [await User.findOne]. *)
Definition on_login (sid u p : string) : H unit := suspend (LoginAfterFind sid u p).

(** Lines 82-87: after [findOne]; then [await bcrypt.compare]. *)
Definition login_after_findOne (sid u p : string) : H unit :=
  w ← hget;
  match Credentials.find_one (db w) u with
  | None => socket_emit sid (EvAuthError "Invalid username or password")
  | Some r => suspend (LoginAfterCompare sid u p (Credentials.passwordHash r))
  end.

(** Lines 93-95: [Object.values(onlineUsers).some(u => u.username === username)]. *)
Definition already_online (w : world) (u : string) : bool :=
  existsb (fun e => strict_eq_str (username e) u) (JsObject.values (onlineUsers w)).

(** Lines 88-107: after [compare] (its result [matched]); from here to
    the end the handler runs without suspending. *)
Definition login_after_compare (sid u : string) (matched : bool) (random_bytes : list byte)
  : H unit :=
  if negb matched then socket_emit sid (EvAuthError "Invalid username or password")
  else
    w ← hget;
    if already_online w u then socket_emit sid (EvAuthError "User already logged in")
    else
      let token := Hex.new_token random_bytes in
      hmodify (set_sessions (JsObject.set token u)) ;;
      finish_login sid (UStr u) token.

(** Lines 113-120. *)
Definition on_auto_login (sid token : string) : H unit :=
  w ← hget;
  let v := session_username (JsObject.lookup token (sessions w)) in
  if negb (truthy v) then mret tt else finish_login sid v token.

(** Lines 125-132. *)
Definition on_logout (sid token : string) : H unit :=
  hmodify (set_sessions (JsObject.delete token)) ;;
  w ← hget;
  (if obj_truthy (JsObject.lookup sid (onlineUsers w)) then bind_username sid UNull
   else mret tt) ;;
  socket_emit sid EvLogoutSuccess ;;
  broadcast_presence.

(** Lines 137-145. *)
Definition on_public_message (sid msg : string) : H unit :=
  w ← hget;
  let user := JsObject.lookup sid (onlineUsers w) in
  if negb (obj_truthy user) || negb (truthy (prop_username user)) then mret tt
  else io_emit (EvPublicMessage (prop_username user) msg).

(** Lines 150-160. *)
Definition on_private_message (sid toSocketId message : string) : H unit :=
  w ← hget;
  let fromUser := JsObject.lookup sid (onlineUsers w) in
  let toUser := JsObject.lookup toSocketId (onlineUsers w) in
  if negb (obj_truthy fromUser) || negb (obj_truthy toUser) then mret tt
  else io_to_emit toSocketId (EvPrivateMessage (prop_username fromUser) message sid).

(** Lines 165-168. *)
Definition on_disconnect (sid : string) : H unit :=
  hmodify (set_onlineUsers (JsObject.delete sid)) ;;
  broadcast_presence.

(** The [socket.on] table of lines 59-160. *)
Definition dispatch (sid : string) (ev : cevent) : H unit :=
  match ev with
  | Register u p => on_register sid u p
  | Login u p => on_login sid u p
  | AutoLogin t => on_auto_login sid t
  | Logout t => on_logout sid t
  | PublicMessage m => on_public_message sid m
  | PrivateMessage to m => on_private_message sid to m
  end.

(** ** The event loop *)

(** A handler's completion: an escaping exception is an unhandled
    rejection (or uncaught error), recorded in [faults]. *)
Definition run (h : H unit) (w : world) : world :=
  match h w with
  | (w', Ok _) => w'
  | (w', Throw f) => set_faults (fun fs => fs ++ [f]) w'
  end.

Fixpoint remove_at {A} (n : nat) (l : list A) : list A :=
  match n, l with
  | _, [] => []
  | O, _ :: l' => l'
  | S n', x :: l' => x :: remove_at n' l'
  end.

(** Socket ids of socket.io's [base64id]: 20 characters of the URL-safe
    base64 alphabet (never an [Object.prototype] member).  The ids are
    120 random bits, so a connecting id is new: no open socket, no
    suspended handler and no event so far carries it ([StepConnect]). *)
Definition base64url_char (c : ascii) : bool :=
  let n := nat_of_ascii c in
  ((48 <=? n) && (n <=? 57)) || ((65 <=? n) && (n <=? 90))
  || ((97 <=? n) && (n <=? 122)) || (n =? 45) || (n =? 95).

Definition socket_id_ok (s : string) : bool :=
  (String.length s =? 20) && forallb base64url_char (list_ascii_of_string s)
  && negb (JsObject.is_proto_member s).

Definition connect (sid : string) (w : world) : world :=
  run (on_connection sid) (set_conns (fun c => c ++ [sid]) w).

Definition disconnect (sid : string) (w : world) : world :=
  run (on_disconnect sid) (set_conns (List.filter (fun c => negb (String.eqb sid c))) w).

Definition deliver (sid : string) (ev : cevent) (w : world) : world :=
  run (dispatch sid ev) w.

Definition init_world (users0 : Credentials.users) : world :=
  mkWorld [] JsObject.empty JsObject.empty users0 [] [] [].

Section Continuations.
Context `{HS : Credentials.Hasher}.

(** What an awaited call delivers to its continuation. *)
Record input := mkInput {
  in_salt : Credentials.salt;
  in_now : Z;
  in_bytes : list byte
}.

Definition resume (t : task) (i : input) : H unit :=
  match t with
  | RegisterAfterFind sid u p => register_after_findOne sid u p
  | RegisterAfterHash sid u p =>
      register_after_hash sid u (Credentials.hash p (in_salt i))
  | RegisterAfterCreate sid u h => register_after_create sid u h (in_now i)
  | LoginAfterFind sid u p => login_after_findOne sid u p
  | LoginAfterCompare sid u p h =>
      login_after_compare sid u (Credentials.compare p h) (in_bytes i)
  end.

Definition resume_at (n : nat) (i : input) (w : world) : world :=
  match nth_error (pending w) n with
  | Some t => run (resume t i) (set_pending (remove_at n) w)
  | None => w
  end.

(** What happens in one transition of the whole server. *)
Inductive label :=
| LConnect (sid : string)
| LDisconnect (sid : string)
| LEvent (sid : string) (ev : cevent)
| LResume (n : nat) (i : input).

(** One transition: a connection, a disconnection, an event from a
    connected socket, or the continuation of any suspended handler. *)
Inductive lstep : label -> world -> world -> Prop :=
| StepConnect w sid :
    socket_id_ok sid = true -> ~ In sid (conns w) ->
    Forall (fun t => task_sid t <> sid) (pending w) ->
    ~ In sid (map fst (outbox w)) ->
    lstep (LConnect sid) w (connect sid w)
| StepDisconnect w sid :
    In sid (conns w) -> lstep (LDisconnect sid) w (disconnect sid w)
| StepEvent w sid ev :
    In sid (conns w) -> lstep (LEvent sid ev) w (deliver sid ev w)
| StepResume w n t i :
    nth_error (pending w) n = Some t -> List.length (in_bytes i) = Hex.token_bytes ->
    lstep (LResume n i) w (resume_at n i w).

Definition step (w w' : world) : Prop := exists l, lstep l w w'.

Definition reachable (users0 : Credentials.users) (w : world) : Prop :=
  rtc step (init_world users0) w.

Lemma reachable_init users0 : reachable users0 (init_world users0).
Proof. apply rtc_refl. Qed.

Lemma reachable_step users0 w w' : reachable users0 w -> step w w' -> reachable users0 w'.
Proof. intros Hr Hs. eapply rtc_r; eauto. Qed.

Lemma reachable_connect users0 w sid :
  reachable users0 w -> socket_id_ok sid = true -> ~ In sid (conns w) ->
  Forall (fun t => task_sid t <> sid) (pending w) -> ~ In sid (map fst (outbox w)) ->
  reachable users0 (connect sid w).
Proof. intros Hr Hok Hin Hp Ho. eapply reachable_step; [exact Hr|]. eexists. by constructor. Qed.

Lemma reachable_deliver users0 w sid ev :
  reachable users0 w -> In sid (conns w) -> reachable users0 (deliver sid ev w).
Proof. intros Hr Hin. eapply reachable_step; [exact Hr|]. eexists. by constructor. Qed.

Lemma reachable_resume users0 w n t i :
  reachable users0 w -> nth_error (pending w) n = Some t ->
  List.length (in_bytes i) = Hex.token_bytes -> reachable users0 (resume_at n i w).
Proof. intros Hr Hn Hi. eapply reachable_step; [exact Hr|]. eexists. by econstructor. Qed.

Lemma reachable_disconnect users0 w sid :
  reachable users0 w -> In sid (conns w) -> reachable users0 (disconnect sid w).
Proof. intros Hr Hin. eapply reachable_step; [exact Hr|]. eexists. by constructor. Qed.

End Continuations.

(** Two socket.io ids used by the concrete runs of the development. *)
Definition sidA : string := "AAAAAAAAAAAAAAAAAAAA".
Definition sidB : string := "BBBBBBBBBBBBBBBBBBBB".
Definition sidC : string := "CCCCCCCCCCCCCCCCCCCC".

(** ** Proof support *)

Ltac unf_server :=
  unfold socket_emit, io_emit, io_to_emit, suspend, broadcast_presence,
    bind_username, finish_login, on_register, register_after_findOne,
    register_after_hash, register_after_create, on_login, login_after_findOne,
    login_after_compare, on_auto_login, on_logout, on_public_message,
    on_private_message, on_disconnect, on_connection, dispatch, resume.

Ltac simpl_world :=
  cbn [conns onlineUsers sessions db pending outbox faults set_conns
    set_onlineUsers set_sessions set_db set_pending set_outbox set_faults] in *.

(** Walk a server handler (see [wp_tac]). *)
Ltac wp_server :=
  repeat (wp_step unf_server; try progress cbv beta iota; try progress simpl_world).

(** Finish the branches of a walk: evaluate the tests, drop the
    contradictory branches, and rewrite with the branch conditions. *)
Ltac close_branch :=
  simpl_world; cbn in *; try discriminate;
  repeat match goal with
  | E : ?b = true |- context [?b] => rewrite E
  | E : ?b = false |- context [?b] => rewrite E
  end;
  try reflexivity; try congruence.

Lemma wp_run (P : world -> Prop) h w :
  wp h (fun _ => P) (fun f s => P (set_faults (fun fs => fs ++ [f]) s)) w -> P (run h w).
Proof. unfold wp, run. by destruct (h w) as [s' [a|e]]. Qed.

(** Turn a goal about [run h w] into the walk of [h]. *)
Ltac start_run :=
  match goal with |- context [run ?h ?w] => pattern (run h w); apply wp_run end.

End Server.

Notation "w ~> w'" := (Server.step w w') (at level 70) : chat_scope.
Notation "w ~>* w'" := (rtc Server.step w w') (at level 70) : chat_scope.
Open Scope chat_scope.
