(* ===== verification/Registry.v ===== *)
(** * The connection registry [onlineUsers] (invariant I3)

    The keys of [onlineUsers] are exactly the connected sockets, in the
    order they connected, each entry carries its own key as [socketId],
    and every key is a socket.io id.  Only [on_connection] (line 51)
    adds a key and only [on_disconnect] (line 166) removes one; every
    other handler at most re-binds the [username] of an existing entry
    ([rebind]), which [bind_username] does only after reading the entry
    at that key. *)

From S2P Require Import Prelude JsObject Hex Credentials Server.
From stdpp Require Import gmap relations.

Module Registry.
Import Server.

(** Every entry is filed under its own [socketId]. *)
Definition keyed (o : JsObject.obj entry) : Prop :=
  forall k e, JsObject.get_own k o = Some e -> socketId e = k.

Definition wf (w : world) : Prop :=
  JsObject.keys (onlineUsers w) = conns w /\
  NoDup (conns w) /\
  Forall (fun c => socket_id_ok c = true) (conns w) /\
  keyed (onlineUsers w).

(** [onlineUsers[k].username = v] on an entry read at [k]. *)
Definition rebind (o o' : JsObject.obj entry) : Prop :=
  exists k e v, JsObject.get_own k o = Some e /\
    o' = JsObject.set k (mkEntry (socketId e) v) o.

(** What every handler but [on_connection]/[on_disconnect] leaves of
    the registry. *)
Definition frame (w w' : world) : Prop :=
  conns w' = conns w /\ rtc rebind (onlineUsers w) (onlineUsers w').

(** ** Registry lemmas *)

Lemma lookup_own {V} k (o : JsObject.obj V) e :
  JsObject.lookup k o = JsObject.Own e -> JsObject.get_own k o = Some e.
Proof.
  unfold JsObject.lookup. destruct (JsObject.get_own k o); [congruence|].
  by destruct (JsObject.is_proto_member k).
Qed.

Lemma rebind_of_lookup k o e v :
  JsObject.lookup k o = JsObject.Own e ->
  rtc rebind o (JsObject.set k (mkEntry (socketId e) v) o).
Proof. intros H%lookup_own. apply rtc_once. by exists k, e, v. Qed.

#[export] Hint Resolve rebind_of_lookup rtc_refl : chat.

Lemma rebind_keys o o' : rebind o o' -> JsObject.keys o' = JsObject.keys o.
Proof.
  intros (k & e & v & Hk & ->). apply JsObject.keys_set_in.
  apply JsObject.get_own_In in Hk. apply (in_map fst) in Hk. exact Hk.
Qed.

Lemma rebind_keyed o o' : keyed o -> rebind o o' -> keyed o'.
Proof.
  intros Hk (k & e & v & He & ->) k' e'.
  destruct (String.eqb_spec k k') as [<-|Hne].
  - rewrite JsObject.get_own_set_eq. intros [= <-]. cbn. by apply (Hk k).
  - rewrite JsObject.get_own_set_ne by done. apply Hk.
Qed.

Lemma rtc_rebind_keys o o' : rtc rebind o o' -> JsObject.keys o' = JsObject.keys o.
Proof. induction 1 as [|x y z Hxy _ IH]; [done|]. rewrite IH. by apply rebind_keys. Qed.

Lemma rtc_rebind_keyed o o' : keyed o -> rtc rebind o o' -> keyed o'.
Proof. intros Hk H. induction H; eauto using rebind_keyed. Qed.

Lemma wf_frame w w' : wf w -> frame w w' -> wf w'.
Proof.
  intros (Hkeys & Hnd & Hok & Hkd) [Hc Hr]. unfold wf.
  rewrite Hc, (rtc_rebind_keys _ _ Hr). eauto using rtc_rebind_keyed.
Qed.

(** ** Every handler of a connected socket and every continuation
    leaves the registry framed. *)

Ltac close_frame := unfold frame; simpl_world; split; [reflexivity | eauto with chat].

Lemma deliver_frame sid ev w : frame w (deliver sid ev w).
Proof. unfold deliver. start_run. destruct ev; wp_server; close_frame. Qed.

Lemma resume_at_frame `{Credentials.Hasher} n i w : frame w (resume_at n i w).
Proof.
  unfold resume_at. destruct (nth_error (pending w) n) as [t|]; [|close_frame].
  start_run. destruct t; wp_server; close_frame.
Qed.

Lemma connect_registry sid w :
  conns (connect sid w) = conns w ++ [sid] /\
  onlineUsers (connect sid w) = JsObject.set sid (mkEntry sid UNull) (onlineUsers w).
Proof. done. Qed.

Lemma disconnect_registry sid w :
  conns (disconnect sid w) = List.filter (fun c => negb (String.eqb sid c)) (conns w) /\
  onlineUsers (disconnect sid w) = JsObject.delete sid (onlineUsers w).
Proof. done. Qed.

Lemma wf_connect sid w :
  wf w -> socket_id_ok sid = true -> ~ In sid (conns w) -> wf (connect sid w).
Proof.
  intros (Hkeys & Hnd & Hok & Hkd) Hsid Hfresh.
  unfold wf. destruct (connect_registry sid w) as [-> ->].
  split; [|split; [|split]].
  - rewrite JsObject.keys_set_notin; [by rewrite Hkeys|by rewrite Hkeys].
  - apply NoDup_app. split; [done|]. split; [|apply NoDup_singleton].
    intros x Hx ->%list_elem_of_singleton. apply Hfresh. by apply list_elem_of_In.
  - apply Forall_app. auto.
  - intros k e. destruct (String.eqb_spec sid k) as [<-|Hne].
    + rewrite JsObject.get_own_set_eq. by intros [= <-].
    + rewrite JsObject.get_own_set_ne by done. apply Hkd.
Qed.

Lemma wf_disconnect sid w : wf w -> wf (disconnect sid w).
Proof.
  intros (Hkeys & Hnd & Hok & Hkd). unfold wf. destruct (disconnect_registry sid w) as [-> ->].
  split; [|split; [|split]].
  - by rewrite JsObject.keys_delete, Hkeys.
  - by apply NoDup_List_filter.
  - apply List.Forall_forall. intros c [Hc _]%filter_In. by apply (proj1 (List.Forall_forall _ _) Hok).
  - intros k e. destruct (String.eqb_spec sid k) as [<-|Hne].
    + by rewrite JsObject.get_own_delete_eq.
    + rewrite JsObject.get_own_delete_ne by done. apply Hkd.
Qed.

Lemma wf_init users0 : wf (init_world users0).
Proof. split; [done|]. split; [constructor|]. split; [constructor|]. done. Qed.

Lemma wf_step `{Credentials.Hasher} w w' : wf w -> w ~> w' -> wf w'.
Proof.
  intros Hwf [l Hs]. destruct Hs.
  - by apply wf_connect.
  - by apply wf_disconnect.
  - eapply wf_frame; [done|apply deliver_frame].
  - eapply wf_frame; [done|apply resume_at_frame].
Qed.

Lemma wf_reachable `{Credentials.Hasher} users0 w : reachable users0 w -> wf w.
Proof.
  unfold reachable. intros Hr.
  apply (rtc_invariant step wf (init_world users0) w wf_step (wf_init users0) Hr).
Qed.

(** C1: in every reachable state the keys of [onlineUsers] are exactly
    the connected sockets, in connection order, without repetition, each
    a socket.io id, and each entry is filed under its own [socketId]. *)
Theorem reachable_wf `{Credentials.Hasher} users0 w : reachable users0 w -> wf w.
Proof. apply wf_reachable. Qed.

(** A connected socket always finds its own entry. *)
Lemma wf_live_entry w sid :
  wf w -> In sid (conns w) ->
  exists e, JsObject.get_own sid (onlineUsers w) = Some e /\ socketId e = sid.
Proof.
  intros (Hkeys & _ & _ & Hkd) Hin. rewrite <- Hkeys in Hin.
  destruct (JsObject.get_own sid (onlineUsers w)) as [e|] eqn:He.
  - exists e. split; [done|]. by apply Hkd.
  - by apply JsObject.get_own_None_keys in He.
Qed.

(** The read [onlineUsers[sid]] of a connected socket finds its entry. *)
Lemma wf_live_lookup w sid :
  wf w -> In sid (conns w) ->
  exists e, JsObject.lookup sid (onlineUsers w) = JsObject.Own e /\ socketId e = sid.
Proof.
  intros Hwf Hin. destruct (wf_live_entry w sid Hwf Hin) as (e & He & Hs).
  exists e. unfold JsObject.lookup. by rewrite He.
Qed.

(** The read [onlineUsers[k]] of any other key reaches [Object.prototype]. *)
Lemma wf_dead_lookup w k :
  wf w -> ~ In k (conns w) ->
  JsObject.lookup k (onlineUsers w) =
    if JsObject.is_proto_member k then JsObject.Inherited k else JsObject.Absent.
Proof.
  intros (Hkeys & _) Hk. unfold JsObject.lookup.
  rewrite (proj2 (JsObject.get_own_None_keys k _)); [done|]. by rewrite Hkeys.
Qed.

(** ** Witnesses *)

Lemma reachable_wf_witness :
  @reachable Credentials.demo_hasher ∅ (connect sidA (init_world ∅)) /\
  wf (connect sidA (init_world ∅)).
Proof.
  assert (Hr : @reachable Credentials.demo_hasher ∅ (connect sidA (init_world ∅))).
  { apply reachable_connect; [apply reachable_init|reflexivity|cbn; tauto|constructor|cbn; tauto]. }
  split; [exact Hr|]. exact (reachable_wf _ _ Hr).
Defined.

End Registry.
