(* ===== verification/Routing.v ===== *)
(** * The message router: [public_message] and [private_message]

    server.js lines 137-160.  For a well-formed world (the registry
    invariant of [Registry]):
    - a private message to a connected socket is written once, to that
      socket only, with the sender's [username] and id (spec P3);
    - a private message to an id that is not connected changes nothing
      (spec P4), including ids such as ["constructor"] that the read
      [onlineUsers[toSocketId]] finds on [Object.prototype];
    - a public message from a socket without a truthy [username] changes
      nothing (spec P6); otherwise it goes to every connected socket,
      the sender included;
    - but the private handler checks only that both entries exist, so a
      socket that never logged in sends private messages with
      [from: null] (a divergence from spec P6 and section 4.5). *)

From S2P Require Import Prelude JsObject Hex Credentials Server Registry.
From stdpp Require Import gmap.

Module Routing.
Import Server Registry.

Lemma set_outbox_nil {A} (f : A -> string * sevent) w :
  set_outbox (fun o => o ++ map f []) w = w.
Proof. destruct w. unfold set_outbox. cbn. by rewrite app_nil_r. Qed.

(** Close the branches of a walk that contradict the known reads. *)
Ltac close_reads :=
  simpl_world;
  repeat first
    [ match goal with
      | H : JsObject.lookup ?k ?o = _, E : context [JsObject.lookup ?k ?o] |- _ =>
          rewrite H in E
      | H : truthy ?u = _, E : context [truthy ?u] |- _ => rewrite H in E
      | H : JsObject.lookup ?k ?o = _ |- context [JsObject.lookup ?k ?o] => rewrite H
      end
    | progress cbn in * ];
  try discriminate; try congruence.

Lemma private_delivery w sid to m :
  wf w -> In sid (conns w) -> In to (conns w) ->
  exists e, JsObject.get_own sid (onlineUsers w) = Some e /\
    deliver sid (PrivateMessage to m) w =
    set_outbox (fun o => o ++ [(to, EvPrivateMessage (username e) m sid)]) w.
Proof.
  intros Hwf Hs Ht.
  destruct (wf_live_lookup w sid Hwf Hs) as (e & He & _).
  destruct (wf_live_lookup w to Hwf Ht) as (e' & He' & _).
  exists e. split; [by apply lookup_own|].
  unfold deliver. start_run. wp_server; close_reads.
  rewrite filter_eqb_in; [done| |done]. apply Hwf.
Qed.

(** C3: a private message between connected sockets is written to the
    target only, once, carrying the sender's [username], the message
    verbatim and the sender's id; nothing else changes. *)
Theorem private_message_delivered w sid to m :
  wf w -> In sid (conns w) -> In to (conns w) ->
  exists e, JsObject.get_own sid (onlineUsers w) = Some e /\
    deliver sid (PrivateMessage to m) w =
    set_outbox (fun o => o ++ [(to, EvPrivateMessage (username e) m sid)]) w.
Proof. apply private_delivery. Qed.

(** C8: a private message to an id that is not connected is dropped:
    the world is unchanged, and no error reaches the sender. *)
Theorem private_message_dropped w sid to m :
  wf w -> ~ In to (conns w) -> deliver sid (PrivateMessage to m) w = w.
Proof.
  intros Hwf Ht. pose proof (wf_dead_lookup w to Hwf Ht) as Hto.
  unfold deliver. start_run. wp_server; close_reads;
    try (destruct (JsObject.is_proto_member to); discriminate).
  rewrite filter_eqb_notin by done. apply set_outbox_nil.
Qed.

(** C4: a public message from a socket whose [username] is not truthy
    ([null] before login or after logout) is dropped. *)
Theorem public_message_gated w sid m e :
  JsObject.get_own sid (onlineUsers w) = Some e -> truthy (username e) = false ->
  deliver sid (PublicMessage m) w = w.
Proof.
  intros He Hu. assert (Hl : JsObject.lookup sid (onlineUsers w) = JsObject.Own e)
    by (unfold JsObject.lookup; by rewrite He).
  unfold deliver. start_run. wp_server; close_reads.
Qed.

(** C21: a public message from a bound socket is broadcast to every
    connected socket, the sender included (self-echo, spec section 9). *)
Theorem public_message_broadcast w sid m e :
  JsObject.get_own sid (onlineUsers w) = Some e -> truthy (username e) = true ->
  deliver sid (PublicMessage m) w =
  set_outbox (fun o => o ++ map (fun c => (c, EvPublicMessage (username e) m)) (conns w)) w.
Proof.
  intros He Hu. assert (Hl : JsObject.lookup sid (onlineUsers w) = JsObject.Own e)
    by (unfold JsObject.lookup; by rewrite He).
  unfold deliver. start_run. wp_server; close_reads.
Qed.

(** ** Witnesses and the ungated private message *)

Definition w_two : world := connect sidB (connect sidA (init_world ∅)).

Lemma w_two_reachable : @reachable Credentials.demo_hasher ∅ w_two.
Proof.
  unfold w_two.
  apply reachable_connect; [|reflexivity|cbn; unfold sidA, sidB; intuition discriminate|constructor|cbn; tauto].
  apply reachable_connect; [apply reachable_init|reflexivity|cbn; tauto|constructor|cbn; tauto].
Qed.

Lemma w_two_wf : wf w_two.
Proof. exact (@wf_reachable Credentials.demo_hasher _ _ w_two_reachable). Qed.

Lemma private_message_delivered_witness :
  wf w_two /\ In sidA (conns w_two) /\ In sidB (conns w_two) /\
  exists e, JsObject.get_own sidA (onlineUsers w_two) = Some e /\
    deliver sidA (PrivateMessage sidB "hi") w_two =
    set_outbox (fun o => o ++ [(sidB, EvPrivateMessage (username e) "hi" sidA)]) w_two.
Proof.
  split; [exact w_two_wf|]. split; [cbn; tauto|]. split; [cbn; tauto|].
  apply private_message_delivered; [exact w_two_wf|cbn; tauto|cbn; tauto].
Defined.

Lemma private_message_dropped_witness :
  wf w_two /\ ~ In sidC (conns w_two) /\
  deliver sidA (PrivateMessage sidC "hi") w_two = w_two.
Proof.
  assert (Hc : ~ In sidC (conns w_two)).
  { cbn. unfold sidA, sidB, sidC. intuition discriminate. }
  split; [exact w_two_wf|]. split; [exact Hc|].
  exact (private_message_dropped _ _ _ _ w_two_wf Hc).
Defined.

Lemma public_message_gated_witness :
  JsObject.get_own sidA (onlineUsers w_two) = Some (mkEntry sidA UNull) /\
  truthy UNull = false /\
  deliver sidA (PublicMessage "hi") w_two = w_two.
Proof.
  split; [reflexivity|]. split; [reflexivity|].
  apply (public_message_gated _ _ _ (mkEntry sidA UNull)); reflexivity.
Defined.

Definition w_alice : world :=
  set_onlineUsers (JsObject.set sidA (mkEntry sidA (UStr "alice"))) w_two.

Lemma public_message_broadcast_witness :
  JsObject.get_own sidA (onlineUsers w_alice) = Some (mkEntry sidA (UStr "alice")) /\
  truthy (UStr "alice") = true /\
  deliver sidA (PublicMessage "hi") w_alice =
  set_outbox (fun o => o ++ map (fun c => (c, EvPublicMessage (UStr "alice") "hi"))
                                (conns w_alice)) w_alice.
Proof.
  split; [reflexivity|]. split; [reflexivity|].
  apply (public_message_broadcast _ _ _ (mkEntry sidA (UStr "alice"))); reflexivity.
Defined.

(** C23: the private handler is not gated on authentication: in a
    reachable state where socket A never logged in (its entry's
    [username] is [null]), A's private message to B is delivered with
    [from: null].  Spec P6 and section 4.5 require it to be dropped. *)
Theorem private_message_not_gated :
  exists w, @reachable Credentials.demo_hasher ∅ w /\
    JsObject.get_own sidA (onlineUsers w) = Some (mkEntry sidA UNull) /\
    outbox (deliver sidA (PrivateMessage sidB "hi") w) =
    outbox w ++ [(sidB, EvPrivateMessage UNull "hi" sidA)].
Proof.
  exists w_two. split; [exact w_two_reachable|]. split; [reflexivity|].
  destruct (private_delivery w_two sidA sidB "hi" w_two_wf)
    as (e & He & ->); [cbn; tauto|cbn; tauto|].
  cbn in He. injection He as <-. reflexivity.
Qed.

End Routing.
