(* ===== verification/Scenario.v ===== *)
(** * Concrete runs of the server

    Runs of the step relation on concrete inputs, with the [demo_hasher]
    of [Credentials], used as witnesses and counterexamples by the
    property files:
    - [scenario]: the scenario of spec section 8 (A registers and logs
      in as alice, B logs in as bob, B sends A a private message, A
      disconnects);
    - [two_tabs]: a second socket auto-logs in with alice's token, as a
      second browser tab sharing [localStorage] does;
    - [late_login]: a login whose socket disconnects while bcrypt runs;
    - [race]: two sockets register the same name concurrently. *)

From S2P Require Import Prelude JsObject Hex Credentials Server.
From stdpp Require Import gmap.
From Stdlib Require Import ZArith Strings.Byte.

Module Scenario.
Import Server.

#[local] Existing Instance Credentials.demo_hasher.

Definition bytesA : list byte := repeat x0a 24.
Definition bytesB : list byte := repeat x0b 24.
Definition inA : input := mkInput tt 1%Z bytesA.
Definition inB : input := mkInput tt 2%Z bytesB.

(** bob registered in an earlier run of the process. *)
Definition users0 : Credentials.users :=
  {[ "bob" := Credentials.mkUser "bob" (Credentials.hash "pwb" tt) 0 ]}.

Definition s_registered : world :=
  resume_at 0 inA (resume_at 0 inA (resume_at 0 inA
    (deliver sidA (Register "alice" "pw1") (connect sidA (init_world users0))))).

Definition s_alice : world :=
  resume_at 0 inA (resume_at 0 inA (deliver sidA (Login "alice" "pw1") s_registered)).

Definition s_bob : world :=
  resume_at 0 inB (resume_at 0 inB (deliver sidB (Login "bob" "pwb") (connect sidB s_alice))).

Definition scenario : world :=
  disconnect sidA (deliver sidB (PrivateMessage sidA "hi") s_bob).

Definition two_tabs : world :=
  deliver sidB (AutoLogin (Hex.new_token bytesA)) (connect sidB s_alice).

Definition late_login : world :=
  resume_at 0 inA (resume_at 0 inA
    (disconnect sidA (deliver sidA (Login "alice" "pw1") s_registered))).

Definition race : world :=
  let w := deliver sidB (Register "carol" "pwB")
             (deliver sidA (Register "carol" "pwA") (connect sidB (connect sidA (init_world ∅)))) in
  resume_at 0 inB (resume_at 0 inA (resume_at 0 inB (resume_at 0 inA
    (resume_at 0 inB (resume_at 0 inA w))))).

(** Discharge the side conditions of a concrete run. *)
Ltac reach :=
  repeat match goal with
  | |- reachable _ (init_world _) => apply reachable_init
  | |- reachable _ (resume_at _ _ _) =>
      eapply reachable_resume; [| vm_compute; reflexivity | reflexivity]
  | |- reachable _ (deliver _ _ _) => apply reachable_deliver; [| vm_compute; tauto]
  | |- reachable _ (disconnect _ _) => apply reachable_disconnect; [| vm_compute; tauto]
  | |- reachable _ (connect _ _) =>
      apply reachable_connect;
        [| reflexivity
         | vm_compute; intuition discriminate
         | vm_compute; repeat (constructor || (intros ?Heq; discriminate Heq))
         | vm_compute; intuition discriminate]
  end.

Lemma s_alice_reachable : reachable users0 s_alice.
Proof. unfold s_alice, s_registered. reach. Qed.

Lemma scenario_reachable : reachable users0 scenario.
Proof. unfold scenario, s_bob, s_alice, s_registered. reach. Qed.

Lemma two_tabs_reachable : reachable users0 two_tabs.
Proof. unfold two_tabs, s_alice, s_registered. reach. Qed.

Lemma late_login_reachable : reachable users0 late_login.
Proof. unfold late_login, s_registered. reach. Qed.

Lemma race_reachable : reachable ∅ race.
Proof. unfold race. reach. Qed.

(** The events of spec section 8, in the order the sockets receive them. *)
Definition scenario_events : list (string * sevent) :=
  [(sidA, EvRegisterSuccess "Registration successful");
   (sidA, EvLoginSuccess (UStr "alice") (Hex.new_token bytesA));
   (sidA, EvOnlineUsers [mkEntry sidA (UStr "alice")]);
   (sidB, EvLoginSuccess (UStr "bob") (Hex.new_token bytesB));
   (sidA, EvOnlineUsers [mkEntry sidA (UStr "alice"); mkEntry sidB (UStr "bob")]);
   (sidB, EvOnlineUsers [mkEntry sidA (UStr "alice"); mkEntry sidB (UStr "bob")]);
   (sidA, EvPrivateMessage (UStr "bob") "hi" sidB);
   (sidB, EvOnlineUsers [mkEntry sidB (UStr "bob")])].

(** C14: the scenario of spec section 8 runs as the spec describes: A
    registers and logs in as alice and sees [[alice]] online; B logs in
    as bob and both see [[alice, bob]]; B's private message reaches A
    only, from bob; after A disconnects B sees [[bob]].  No exception
    escapes. *)
Theorem scenario_runs :
  reachable users0 scenario /\ outbox scenario = scenario_events /\ faults scenario = [].
Proof.
  split; [exact scenario_reachable|]. split; vm_compute; reflexivity.
Qed.

End Scenario.
