(* ===== verification/Uniqueness.v ===== *)
(** * One connection per username (invariant I1, spec P1)

    [login] checks [alreadyOnline] (lines 93-99) and binds the name
    (line 104) with no [await] in between, so the check and the bind
    are one atomic step of the event loop: on every run made of
    connections, disconnections, continuations and events other than
    [auto_login], no two entries of [onlineUsers] carry the same name.
    [auto_login] (lines 113-120) binds the session's name without the
    check, and two browser tabs sharing one token break the invariant. *)

From S2P Require Import Prelude JsObject Hex Credentials Server Registry Scenario.
From stdpp Require Import gmap.
From Stdlib Require Import Strings.Byte.

Module Uniqueness.
Import Server Registry.

(** No two keys carry the same string [username]. *)
Definition unique_binding (o : JsObject.obj entry) : Prop :=
  forall k1 k2 e1 e2 u,
    JsObject.get_own k1 o = Some e1 -> JsObject.get_own k2 o = Some e2 ->
    username e1 = UStr u -> username e2 = UStr u -> k1 = k2.

Definition is_auto_login `{Credentials.Hasher} (l : label) : bool :=
  match l with LEvent _ (AutoLogin _) => true | _ => false end.

(** Transitions other than an [auto_login] event. *)
Definition pw_step `{Credentials.Hasher} (w w' : world) : Prop :=
  exists l, lstep l w w' /\ is_auto_login l = false.

(** ** Lemmas on the registry *)

Lemma unique_set o sid x v :
  unique_binding o ->
  (forall u k e, v = UStr u -> JsObject.get_own k o = Some e -> k <> sid ->
                 username e <> UStr u) ->
  unique_binding (JsObject.set sid (mkEntry x v) o).
Proof.
  intros Hu Hfresh k1 k2 e1 e2 u H1 H2 U1 U2.
  destruct (String.eqb_spec sid k1) as [<-|N1], (String.eqb_spec sid k2) as [<-|N2];
    [done| | |].
  - rewrite JsObject.get_own_set_eq in H1. rewrite JsObject.get_own_set_ne in H2 by done.
    injection H1 as <-. exfalso. by apply (Hfresh u k2 e2 U1 H2).
  - rewrite JsObject.get_own_set_eq in H2. rewrite JsObject.get_own_set_ne in H1 by done.
    injection H2 as <-. exfalso. by apply (Hfresh u k1 e1 U2 H1).
  - rewrite JsObject.get_own_set_ne in H1, H2 by done. eauto.
Qed.

Lemma unique_delete o k : unique_binding o -> unique_binding (JsObject.delete k o).
Proof.
  intros Hu k1 k2 e1 e2 u H1 H2.
  destruct (String.eqb_spec k k1) as [<-|N1]; [by rewrite JsObject.get_own_delete_eq in H1|].
  destruct (String.eqb_spec k k2) as [<-|N2]; [by rewrite JsObject.get_own_delete_eq in H2|].
  rewrite JsObject.get_own_delete_ne in H1, H2 by done. eauto.
Qed.

(** [alreadyOnline] is false exactly when no entry carries the name. *)
Lemma already_online_false w u k e :
  already_online w u = false -> JsObject.get_own k (onlineUsers w) = Some e ->
  username e <> UStr u.
Proof.
  intros Ha He Hu. apply JsObject.get_own_values in He.
  assert (existsb (fun e => strict_eq_str (username e) u) (JsObject.values (onlineUsers w)) = true)
    as Ht by (apply existsb_exists; exists e; rewrite Hu; cbn; auto using String.eqb_refl).
  unfold already_online in Ha. congruence.
Qed.

Lemma already_online_true w u k e :
  JsObject.get_own k (onlineUsers w) = Some e -> username e = UStr u ->
  already_online w u = true.
Proof.
  intros He Hu. apply JsObject.get_own_values in He. apply existsb_exists.
  exists e. rewrite Hu. cbn. auto using String.eqb_refl.
Qed.

Ltac close_unique :=
  simpl_world;
  first
    [ assumption
    | apply unique_delete; assumption
    | apply unique_set; [assumption|];
      intros ?u ?k ?e ?Hv ?Hk ?Hne;
      first [ discriminate Hv
            | injection Hv as <-; eapply already_online_false; eassumption ] ].

Lemma deliver_unique sid ev w :
  match ev with AutoLogin _ => False | _ => True end ->
  unique_binding (onlineUsers w) -> unique_binding (onlineUsers (deliver sid ev w)).
Proof.
  intros Hev Hu. unfold deliver. start_run. destruct ev; [..| done | | | ];
    wp_server; close_unique.
Qed.

Lemma resume_at_unique `{Credentials.Hasher} n i w :
  unique_binding (onlineUsers w) -> unique_binding (onlineUsers (resume_at n i w)).
Proof.
  intros Hu. unfold resume_at. destruct (nth_error (pending w) n) as [t|]; [|done].
  start_run. destruct t; wp_server; close_unique.
Qed.

Lemma pw_step_unique `{Credentials.Hasher} w w' :
  unique_binding (onlineUsers w) -> pw_step w w' -> unique_binding (onlineUsers w').
Proof.
  intros Hu (l & Hs & Hl). destruct Hs.
  - apply unique_set; [done|]. intros u k e Hv. discriminate.
  - by apply unique_delete.
  - apply deliver_unique; [|done]. destruct ev; done.
  - by apply resume_at_unique.
Qed.

(** ** Properties *)

(** C5: on every run without [auto_login] events (any interleaving of
    connections, disconnections, events and [await] continuations), no
    two connections are bound to the same username (spec I1 and P1). *)
Theorem single_session_without_auto_login `{Credentials.Hasher} users0 w :
  rtc pw_step (init_world users0) w -> unique_binding (onlineUsers w).
Proof.
  intros Hr. apply (rtc_invariant pw_step (fun w => unique_binding (onlineUsers w))
                      (init_world users0) w pw_step_unique); [|exact Hr].
  intros k1 k2 e1 e2 u H1. discriminate.
Qed.

(** C6: a login whose password matched while the name is bound on any
    connection answers ["User already logged in"] to its socket and
    changes nothing else: no session, no binding, no broadcast. *)
Theorem login_already_online sid u bs w k e :
  JsObject.get_own k (onlineUsers w) = Some e -> username e = UStr u ->
  exec (login_after_compare sid u true bs) w =
  if is_live sid w
  then set_outbox (fun o => o ++ [(sid, EvAuthError "User already logged in")]) w
  else w.
Proof.
  intros He Hu. pose proof (already_online_true w u k e He Hu) as Ha.
  apply wp_exec. wp_server; close_branch.
Qed.

(** C22: [auto_login] skips the [alreadyOnline] check: after alice logs
    in on socket A, a second socket B (a second tab sharing the stored
    token) auto-logs in with her token, and both connections are bound
    to alice in a reachable state. *)
Theorem auto_login_breaks_single_session :
  @reachable Credentials.demo_hasher Scenario.users0 Scenario.two_tabs /\
  JsObject.get_own sidA (onlineUsers Scenario.two_tabs) = Some (mkEntry sidA (UStr "alice")) /\
  JsObject.get_own sidB (onlineUsers Scenario.two_tabs) = Some (mkEntry sidB (UStr "alice")) /\
  ~ unique_binding (onlineUsers Scenario.two_tabs).
Proof.
  split; [exact Scenario.two_tabs_reachable|].
  split; [vm_compute; reflexivity|]. split; [vm_compute; reflexivity|].
  intros Hu. assert (sidA = sidB) as Hab.
  { apply (Hu sidA sidB (mkEntry sidA (UStr "alice")) (mkEntry sidB (UStr "alice")) "alice");
      [vm_compute; reflexivity|vm_compute; reflexivity|reflexivity|reflexivity]. }
  discriminate Hab.
Qed.

(** ** Witnesses *)

Lemma single_session_without_auto_login_witness :
  rtc (@pw_step Credentials.demo_hasher) (init_world ∅) (connect sidA (init_world ∅)) /\
  unique_binding (onlineUsers (connect sidA (init_world ∅))).
Proof.
  assert (Hr : rtc (@pw_step Credentials.demo_hasher) (init_world ∅) (connect sidA (init_world ∅))).
  { apply rtc_once. exists (LConnect sidA). split; [|reflexivity].
    constructor; [reflexivity|cbn; tauto|constructor|cbn; tauto]. }
  split; [exact Hr|]. exact (single_session_without_auto_login _ _ Hr).
Defined.

(** alice bound on A, B connected and not logged in. *)
Definition w_bound : world :=
  set_onlineUsers (JsObject.set sidA (mkEntry sidA (UStr "alice")))
    (connect sidB (connect sidA (init_world ∅))).

Lemma login_already_online_witness :
  JsObject.get_own sidA (onlineUsers w_bound) = Some (mkEntry sidA (UStr "alice")) /\
  exec (login_after_compare sidB "alice" true Scenario.bytesB) w_bound =
  (if is_live sidB w_bound
   then set_outbox (fun o => o ++ [(sidB, EvAuthError "User already logged in")]) w_bound
   else w_bound).
Proof.
  split; [reflexivity|].
  exact (login_already_online sidB "alice" Scenario.bytesB w_bound sidA
           (mkEntry sidA (UStr "alice")) eq_refl eq_refl).
Defined.

End Uniqueness.
