(* ===== verification/Sessions.v ===== *)
(** * The session registry [sessions] (spec I2, P5)

    [sessions] maps tokens to usernames (server.js line 43).  [login]
    writes [sessions[token] = username] (line 102) after [findOne] found
    the user; [logout] deletes the token (line 126); [auto_login] reads
    [sessions[token]] (line 114).  This file proves:
    - every session names a user of the collection, and every session
      key is a hex token, hence not an [Object.prototype] member (I2);
      a suspended [login] remembers the hash [findOne] returned;
    - the token [login] creates reads back as the user, and reads as
      [undefined] once [logout] deleted it (P5);
    - but the read [sessions[token]] falls back to [Object.prototype]:
      [auto_login("constructor")] binds the socket to the [Object]
      function, a truthy identity that [public_message] accepts. *)

From S2P Require Import Prelude JsObject Hex Credentials Server Registry Scenario.
From stdpp Require Import gmap.
From Stdlib Require Import Strings.Byte.

Module Sessions.
Import Server Registry.

(** Every session's username is a user of [d]. *)
Definition sok (d : Credentials.users) (o : JsObject.obj string) : Prop :=
  forall tok u, JsObject.get_own tok o = Some u -> is_Some (d !! u).

(** No session key is an [Object.prototype] member. *)
Definition keys_ok (o : JsObject.obj string) : Prop :=
  Forall (fun k => JsObject.is_proto_member k = false) (JsObject.keys o).

(** A login suspended at [bcrypt.compare] holds the stored hash. *)
Definition task_ok (d : Credentials.users) (t : task) : Prop :=
  match t with
  | LoginAfterCompare _ u _ h => exists r, d !! u = Some r /\ Credentials.passwordHash r = h
  | _ => True
  end.

Definition auth_inv (w : world) : Prop :=
  sok (db w) (sessions w) /\ keys_ok (sessions w) /\ Forall (task_ok (db w)) (pending w).

(** ** Component lemmas *)

Lemma sok_mono d d' o : sok d o -> d ⊆ d' -> sok d' o.
Proof. intros Hs Hd tok u Hu. eapply lookup_weaken_is_Some; [|exact Hd]. eauto. Qed.

Lemma sok_set d o tok u : sok d o -> is_Some (d !! u) -> sok d (JsObject.set tok u o).
Proof.
  intros Hs Hu tok' u'. destruct (String.eqb_spec tok tok') as [<-|Hne].
  - rewrite JsObject.get_own_set_eq. by intros [= <-].
  - rewrite JsObject.get_own_set_ne by done. apply Hs.
Qed.

Lemma sok_delete d o tok : sok d o -> sok d (JsObject.delete tok o).
Proof.
  intros Hs tok' u'. destruct (String.eqb_spec tok tok') as [<-|Hne].
  - by rewrite JsObject.get_own_delete_eq.
  - rewrite JsObject.get_own_delete_ne by done. apply Hs.
Qed.

Lemma keys_ok_set o tok u :
  keys_ok o -> JsObject.is_proto_member tok = false -> keys_ok (JsObject.set tok u o).
Proof.
  intros Hk Ht. unfold keys_ok. destruct (in_dec string_dec tok (JsObject.keys o)).
  - by rewrite JsObject.keys_set_in.
  - rewrite JsObject.keys_set_notin by done. apply Forall_app. auto.
Qed.

Lemma keys_ok_delete o tok : keys_ok o -> keys_ok (JsObject.delete tok o).
Proof.
  unfold keys_ok. rewrite JsObject.keys_delete. intros Hk.
  apply List.Forall_forall. intros x [Hx _]%filter_In.
  exact (proj1 (List.Forall_forall _ _) Hk x Hx).
Qed.

Lemma task_ok_mono d d' t : task_ok d t -> d ⊆ d' -> task_ok d' t.
Proof.
  destruct t; cbn; auto. intros (r & Hr & Hh) Hd. exists r. split; [|done].
  eapply lookup_weaken; eauto.
Qed.

Lemma tasks_ok_mono d d' ts : Forall (task_ok d) ts -> d ⊆ d' -> Forall (task_ok d') ts.
Proof. intros H Hd. eapply Forall_impl; [exact H|]. eauto using task_ok_mono. Qed.

Lemma Forall_remove_at {A} (P : A -> Prop) n l : Forall P l -> Forall P (remove_at n l).
Proof.
  revert l; induction n as [|n IH]; intros [|x l] H; cbn; auto.
  - by inversion H.
  - inversion H; subst. constructor; auto.
Qed.

Lemma create_user_subseteq d u h now d' :
  Credentials.create_user d u h now = inr d' -> d ⊆ d'.
Proof. intros [Hn ->]%Credentials.create_user_ok. by apply insert_subseteq. Qed.

Lemma sok_create d o u h now d' :
  sok d o -> Credentials.create_user d u h now = inr d' -> sok d' o.
Proof. eauto using sok_mono, create_user_subseteq. Qed.

Lemma tasks_ok_create d ts u h now d' :
  Forall (task_ok d) ts -> Credentials.create_user d u h now = inr d' -> Forall (task_ok d') ts.
Proof. eauto using tasks_ok_mono, create_user_subseteq. Qed.

Lemma find_one_task_ok d sid u p r :
  Credentials.find_one d u = Some r ->
  task_ok d (LoginAfterCompare sid u p (Credentials.passwordHash r)).
Proof. unfold Credentials.find_one. intros Hr. by exists r. Qed.

Lemma task_ok_login_user d sid u p h :
  task_ok d (LoginAfterCompare sid u p h) -> is_Some (d !! u).
Proof. intros (r & Hr & _). by exists r. Qed.

Create HintDb sessions.
#[export] Hint Resolve sok_set sok_delete keys_ok_set keys_ok_delete
  Forall_remove_at Hex.to_hex_not_proto find_one_task_ok task_ok_login_user
  create_user_subseteq : sessions.
#[export] Hint Constructors Forall : sessions.
#[export] Hint Extern 2 (task_ok _ _) => exact I : sessions.

Ltac close_auth :=
  unfold auth_inv in *; simpl_world; destruct_and?;
  repeat split;
  first
    [ assumption
    | eapply sok_create; eassumption
    | eapply tasks_ok_create; [|eassumption]; eauto with sessions
    | apply Forall_app; split; eauto with sessions
    | eauto with sessions ].

Lemma deliver_auth sid ev w : auth_inv w -> auth_inv (deliver sid ev w).
Proof. intros Hi. unfold deliver. start_run. destruct ev; wp_server; close_auth. Qed.

Lemma resume_at_auth `{Credentials.Hasher} n i w : auth_inv w -> auth_inv (resume_at n i w).
Proof.
  intros Hi. unfold resume_at. destruct (nth_error (pending w) n) as [t|] eqn:Hn; [|done].
  assert (Ht : task_ok (db w) t) by (eapply Forall_nth_error; [apply Hi|exact Hn]).
  start_run. destruct t; wp_server; close_auth.
Qed.

Lemma auth_step `{Credentials.Hasher} w w' : auth_inv w -> step w w' -> auth_inv w'.
Proof.
  intros Hi [l Hs]. destruct Hs.
  - exact Hi.
  - exact Hi.
  - by apply deliver_auth.
  - by apply resume_at_auth.
Qed.

Lemma auth_reachable `{Credentials.Hasher} users0 w : reachable users0 w -> auth_inv w.
Proof.
  intros Hr. apply (rtc_invariant step auth_inv (init_world users0) w auth_step); [|exact Hr].
  split; [intros tok u; discriminate|]. split; constructor.
Qed.

(** What [login]'s tail (lines 101-102) leaves in [sessions], whether
    or not the bind that follows throws. *)
Lemma sessions_login sid u bs w :
  already_online w u = false ->
  sessions (exec (login_after_compare sid u true bs) w) =
  JsObject.set (Hex.new_token bs) u (sessions w).
Proof. intros Ha. apply wp_exec. wp_server; close_branch. Qed.

Lemma sessions_logout sid tok w :
  sessions (deliver sid (Logout tok) w) = JsObject.delete tok (sessions w).
Proof. unfold deliver. start_run. wp_server; close_branch. Qed.

(** C7: in every reachable state, every session names a user of the
    [User] collection, and no session key is an [Object.prototype]
    member (spec I2). *)
Theorem sessions_name_stored_users `{Credentials.Hasher} users0 w :
  reachable users0 w ->
  (forall tok u, JsObject.get_own tok (sessions w) = Some u -> is_Some (db w !! u)) /\
  Forall (fun k => JsObject.is_proto_member k = false) (JsObject.keys (sessions w)).
Proof. intros Hr. destruct (auth_reachable users0 w Hr) as (Hs & Hk & _). done. Qed.

(** C9: the token a successful login creates reads back as the user;
    after [logout] with that token, from any socket, the read
    [sessions[token]] is [undefined] (spec P5). *)
Theorem session_roundtrip sid sid' u bs w :
  already_online w u = false ->
  let w1 := exec (login_after_compare sid u true bs) w in
  JsObject.lookup (Hex.new_token bs) (sessions w1) = JsObject.Own u /\
  JsObject.lookup (Hex.new_token bs)
    (sessions (deliver sid' (Logout (Hex.new_token bs)) w1)) = JsObject.Absent.
Proof.
  intros Ha w1. unfold w1. rewrite sessions_logout, sessions_login by done.
  split; [apply JsObject.lookup_set_eq|].
  rewrite JsObject.lookup_delete_eq, Hex.to_hex_not_proto. done.
Qed.

(** C24: [sessions[token]] falls back to [Object.prototype]: in any
    reachable state, a connected socket that sends [auto_login] with a
    prototype member's name (["constructor"], ["toString"], ...) as its
    token, which is no session, is bound to that built-in (a truthy
    identity) and is told [login_success]. *)
Theorem auto_login_proto_key `{Credentials.Hasher} users0 w sid k :
  reachable users0 w -> In sid (conns w) -> JsObject.is_proto_member k = true ->
  let w' := deliver sid (AutoLogin k) w in
  JsObject.get_own sid (onlineUsers w') = Some (mkEntry sid (UProto k)) /\
  In (sid, EvLoginSuccess (UProto k) k) (outbox w').
Proof.
  intros Hr Hin Hk w'. pose proof (wf_reachable users0 w Hr) as Hwf.
  destruct (auth_reachable users0 w Hr) as (_ & Hkeys & _).
  assert (Hs : JsObject.lookup k (sessions w) = JsObject.Inherited k).
  { unfold JsObject.lookup. rewrite (proj2 (JsObject.get_own_None_keys _ _)), Hk; [done|].
    intros Hin'. pose proof (proj1 (List.Forall_forall _ _) Hkeys k Hin'). congruence. }
  destruct (wf_live_lookup w sid Hwf Hin) as (e & He & Hsid).
  assert (Hlive : existsb (String.eqb sid) (conns w) = true)
    by (apply existsb_exists; eauto using String.eqb_refl).
  unfold w', deliver. start_run. wp_server; simpl_world; cbn in *;
    rewrite ?Hs in *; cbn in *; try discriminate; try congruence.
  injection He as ->.
  split; [rewrite JsObject.get_own_set_eq, Hsid; done|].
  apply in_app_iff. left. apply in_app_iff. right. by left.
Qed.

(** ** Witnesses *)

Lemma sessions_name_stored_users_witness :
  @reachable Credentials.demo_hasher Scenario.users0 Scenario.s_alice /\
  (forall tok u, JsObject.get_own tok (sessions Scenario.s_alice) = Some u ->
     is_Some (db Scenario.s_alice !! u)) /\
  Forall (fun k => JsObject.is_proto_member k = false) (JsObject.keys (sessions Scenario.s_alice)).
Proof.
  split; [exact Scenario.s_alice_reachable|].
  exact (sessions_name_stored_users _ _ Scenario.s_alice_reachable).
Defined.

Lemma session_roundtrip_witness :
  already_online (init_world ∅) "alice" = false /\
  let w1 := exec (login_after_compare sidA "alice" true Scenario.bytesA) (init_world ∅) in
  JsObject.lookup (Hex.new_token Scenario.bytesA) (sessions w1) = JsObject.Own "alice" /\
  JsObject.lookup (Hex.new_token Scenario.bytesA)
    (sessions (deliver sidB (Logout (Hex.new_token Scenario.bytesA)) w1)) = JsObject.Absent.
Proof.
  split; [reflexivity|]. exact (session_roundtrip sidA sidB "alice" Scenario.bytesA (init_world ∅) eq_refl).
Defined.

Lemma auto_login_proto_key_witness :
  @reachable Credentials.demo_hasher Scenario.users0 Scenario.s_alice /\
  In sidA (conns Scenario.s_alice) /\ JsObject.is_proto_member "constructor" = true /\
  let w' := deliver sidA (AutoLogin "constructor") Scenario.s_alice in
  JsObject.get_own sidA (onlineUsers w') = Some (mkEntry sidA (UProto "constructor")) /\
  In (sidA, EvLoginSuccess (UProto "constructor") "constructor") (outbox w').
Proof.
  assert (Hin : In sidA (conns Scenario.s_alice)) by (vm_compute; tauto).
  split; [exact Scenario.s_alice_reachable|]. split; [exact Hin|]. split; [reflexivity|].
  exact (auto_login_proto_key _ _ sidA "constructor" Scenario.s_alice_reachable Hin eq_refl).
Defined.

End Sessions.
