(* ===== verification/Presence.v ===== *)
(** * The presence broadcaster (spec P2)

    Every handler that changes the [username] of an entry or removes an
    entry ends with [io.emit("online_users", Object.values(onlineUsers))]
    (lines 107, 119, 131, 167), and nothing runs between the change and
    the broadcast that another socket could observe.  A client keeps the
    last [online_users] list it received.  This file proves that in
    every reachable state the last list each connected socket received
    shows exactly the entries bound to a username now (up to order:
    [Object.values] puts array-index keys first).  The property is about
    the bound entries only: [on_connection] (line 51) adds an unbound
    entry without broadcasting, so a socket that has just connected has
    received no list at all until the next change. *)

From S2P Require Import Prelude JsObject Hex Credentials Server Registry Scenario.
From stdpp Require Import gmap.

Module Presence.
Import Server Registry.

(** An entry counts as online when its [username] is truthy (what the
    server tests before relaying a public message, line 139). *)
Definition bound (e : entry) : bool := truthy (username e).

(** The bound entries of [onlineUsers], in property order. *)
Definition view (o : JsObject.obj entry) : list entry := List.filter bound (map snd o).

Definition is_presence (ev : sevent) : bool :=
  match ev with EvOnlineUsers _ => true | _ => false end.

(** The payload of the last [online_users] event written to socket [c]. *)
Fixpoint last_presence (c : string) (o : list (string * sevent)) : option (list entry) :=
  match o with
  | [] => None
  | (c', ev) :: o' =>
      match last_presence c o' with
      | Some l => Some l
      | None =>
          match ev with
          | EvOnlineUsers l => if String.eqb c c' then Some l else None
          | _ => None
          end
      end
  end.

(** Every connected socket's last list shows the bound entries. *)
Definition presence_ok (w : world) : Prop :=
  forall c l, In c (conns w) -> last_presence c (outbox w) = Some l ->
  List.filter bound l ≡ₚ view (onlineUsers w).

(** ** The last event of a socket *)

Lemma lp_app c o1 o2 :
  last_presence c (o1 ++ o2) =
  match last_presence c o2 with Some l => Some l | None => last_presence c o1 end.
Proof.
  induction o1 as [|[c' ev] o1 IH]; cbn; [by destruct (last_presence c o2)|].
  rewrite IH. by destruct (last_presence c o2).
Qed.

Lemma lp_map_other c o cs ev :
  is_presence ev = false -> last_presence c (o ++ map (fun c' => (c', ev)) cs) = last_presence c o.
Proof.
  intros Hev. rewrite lp_app.
  replace (last_presence c (map (fun c' => (c', ev)) cs)) with (@None (list entry)); [done|].
  induction cs as [|c' cs IH]; cbn; [done|]. rewrite <- IH. by destruct ev.
Qed.

Lemma lp_snoc_other c o c' ev :
  is_presence ev = false -> last_presence c (o ++ [(c', ev)]) = last_presence c o.
Proof. apply (lp_map_other c o [c'] ev). Qed.

Lemma lp_broadcast c cs l :
  last_presence c (map (fun c' => (c', EvOnlineUsers l)) cs) =
  if existsb (String.eqb c) cs then Some l else None.
Proof.
  induction cs as [|c' cs IH]; cbn; [done|]. rewrite IH.
  destruct (existsb _ cs), (String.eqb c c'); done.
Qed.

Lemma lp_map_presence c o cs l :
  In c cs -> last_presence c (o ++ map (fun c' => (c', EvOnlineUsers l)) cs) = Some l.
Proof.
  intros Hc. rewrite lp_app, lp_broadcast.
  replace (existsb (String.eqb c) cs) with true; [done|].
  symmetry. apply existsb_exists. exists c. auto using String.eqb_refl.
Qed.

Lemma lp_fresh c o : ~ In c (map fst o) -> last_presence c o = None.
Proof.
  induction o as [|[c' ev] o IH]; cbn; [done|]. intros Hc. rewrite IH by tauto.
  destruct ev; try done. destruct (String.eqb_spec c c'); [subst; tauto|done].
Qed.

(** ** The bound entries *)

Lemma presence_values o : List.filter bound (JsObject.values o) ≡ₚ view o.
Proof. apply List_filter_perm, JsObject.values_perm. Qed.

(** [on_connection] adds an unbound entry under a new key. *)
Lemma view_connect sid o :
  ~ In sid (JsObject.keys o) -> view (JsObject.set sid (mkEntry sid UNull) o) = view o.
Proof.
  intros Hs. unfold view. rewrite JsObject.set_notin_app by done.
  rewrite map_app, List.filter_app. cbn. apply app_nil_r.
Qed.

(** ** Every transition keeps the presence views *)

(** Close a branch of a handler walk: the socket's last list is either
    the broadcast the branch ends with, or the one it had before. *)
Ltac close_presence Hinv :=
  unfold presence_ok in *; simpl_world; intros ?c ?l Hpc Hpl;
  repeat first
    [ rewrite lp_map_presence in Hpl by assumption
    | rewrite lp_map_other in Hpl by reflexivity
    | rewrite lp_snoc_other in Hpl by reflexivity ];
  first [ injection Hpl as <-; apply presence_values | exact (Hinv _ _ Hpc Hpl) ].

Lemma presence_connect sid w :
  wf w -> ~ In sid (conns w) -> ~ In sid (map fst (outbox w)) ->
  presence_ok w -> presence_ok (connect sid w).
Proof.
  intros Hwf Hnew Hfresh Hinv c l. destruct (connect_registry sid w) as [-> ->].
  change (outbox (connect sid w)) with (outbox w).
  intros [Hc|[<-|[]]]%in_app_or Hl.
  - rewrite view_connect; [by apply (Hinv c)|]. by destruct Hwf as [-> _].
  - by rewrite lp_fresh in Hl.
Qed.

Lemma presence_disconnect sid w : presence_ok w -> presence_ok (disconnect sid w).
Proof. intros Hinv. unfold disconnect. start_run. wp_server; close_presence Hinv. Qed.

Lemma presence_deliver sid ev w : presence_ok w -> presence_ok (deliver sid ev w).
Proof. intros Hinv. unfold deliver. start_run. destruct ev; wp_server; close_presence Hinv. Qed.

Lemma presence_resume_at `{Credentials.Hasher} n i w :
  presence_ok w -> presence_ok (resume_at n i w).
Proof.
  intros Hinv. unfold resume_at. destruct (nth_error (pending w) n) as [t|]; [|done].
  start_run. destruct t; wp_server; close_presence Hinv.
Qed.

Lemma presence_step `{Credentials.Hasher} w w' :
  wf w /\ presence_ok w -> w ~> w' -> wf w' /\ presence_ok w'.
Proof.
  intros [Hwf Hp] Hs. split; [by apply (wf_step w w')|]. destruct Hs as [l Hs].
  destruct Hs.
  - by apply presence_connect.
  - by apply presence_disconnect.
  - by apply presence_deliver.
  - by apply presence_resume_at.
Qed.

Lemma presence_reachable `{Credentials.Hasher} users0 w :
  reachable users0 w -> presence_ok w.
Proof.
  intros Hr. apply (rtc_invariant step (fun w => wf w /\ presence_ok w)
                      (init_world users0) w presence_step); [|exact Hr].
  split; [apply wf_init|]. intros c l [].
Qed.

(** ** Properties *)

(** C2: in every reachable state, the last [online_users] list each
    connected socket has received shows exactly the entries that are
    bound to a username now, up to order (spec P2). *)
Theorem presence_consistent `{Credentials.Hasher} users0 w c l :
  reachable users0 w -> In c (conns w) -> last_presence c (outbox w) = Some l ->
  List.filter bound l ≡ₚ view (onlineUsers w).
Proof. intros Hr. exact (presence_reachable users0 w Hr c l). Qed.

(** C27: [on_connection] changes the registry without broadcasting: when
    B connects while alice is logged in on A, B has received no
    [online_users] list, so a client that has just connected does not
    see who is online until the next login, logout or disconnect
    (spec section 4.4: the list is emitted whenever the registry
    changes). *)
Theorem connect_without_presence :
  @reachable Credentials.demo_hasher Scenario.users0 (connect sidB Scenario.s_alice) /\
  view (onlineUsers (connect sidB Scenario.s_alice)) = [mkEntry sidA (UStr "alice")] /\
  onlineUsers (connect sidB Scenario.s_alice) <> onlineUsers Scenario.s_alice /\
  last_presence sidB (outbox (connect sidB Scenario.s_alice)) = None.
Proof.
  split; [unfold Scenario.s_alice, Scenario.s_registered; Scenario.reach|].
  split; [vm_compute; reflexivity|]. split; [vm_compute; discriminate|].
  vm_compute. reflexivity.
Qed.

(** C28: the [online_users] list is [Object.values(onlineUsers)], every
    connection with its [username], not the bound ones only: after a
    connected socket logs out, every connected socket's latest list
    carries that socket's entry with [username: null] (spec P2 speaks
    of the bound-username set). *)
Theorem logout_lists_unbound w sid tok c l :
  wf w -> In sid (conns w) -> In c (conns w) ->
  last_presence c (outbox (deliver sid (Logout tok) w)) = Some l ->
  In (mkEntry sid UNull) l /\ bound (mkEntry sid UNull) = false.
Proof.
  intros Hwf Hs Hc. destruct (wf_live_lookup w sid Hwf Hs) as (e & He & Hse).
  intros Hl. split; [|reflexivity]. revert Hl. unfold deliver. start_run.
  wp_server; simpl_world; intros Hl; try discriminate He.
  all: rewrite lp_map_presence in Hl by assumption; injection Hl as <-.
  all: first [ rewrite He in E; discriminate E
             | injection He as ->; rewrite Hse; apply (JsObject.get_own_values sid);
               apply JsObject.get_own_set_eq ].
Qed.

(** ** Witnesses *)

Lemma presence_consistent_witness :
  @reachable Credentials.demo_hasher Scenario.users0 Scenario.s_alice /\
  In sidA (conns Scenario.s_alice) /\
  last_presence sidA (outbox Scenario.s_alice) = Some [mkEntry sidA (UStr "alice")] /\
  List.filter bound [mkEntry sidA (UStr "alice")] ≡ₚ view (onlineUsers Scenario.s_alice).
Proof.
  split; [exact Scenario.s_alice_reachable|]. split; [vm_compute; tauto|].
  split; [vm_compute; reflexivity|].
  apply (@presence_consistent Credentials.demo_hasher Scenario.users0 Scenario.s_alice sidA);
    [exact Scenario.s_alice_reachable|vm_compute; tauto|vm_compute; reflexivity].
Defined.

Lemma logout_lists_unbound_witness :
  wf Scenario.s_alice /\ In sidA (conns Scenario.s_alice) /\
  last_presence sidA
    (outbox (deliver sidA (Logout (Hex.new_token Scenario.bytesA)) Scenario.s_alice)) =
    Some [mkEntry sidA UNull] /\
  In (mkEntry sidA UNull) [mkEntry sidA UNull] /\ bound (mkEntry sidA UNull) = false.
Proof.
  assert (Hwf : wf Scenario.s_alice)
    by exact (@wf_reachable Credentials.demo_hasher _ _ Scenario.s_alice_reachable).
  assert (Hin : In sidA (conns Scenario.s_alice)) by (vm_compute; tauto).
  assert (Hl : last_presence sidA
    (outbox (deliver sidA (Logout (Hex.new_token Scenario.bytesA)) Scenario.s_alice)) =
    Some [mkEntry sidA UNull]) by (vm_compute; reflexivity).
  split; [exact Hwf|]. split; [exact Hin|]. split; [exact Hl|].
  exact (logout_lists_unbound Scenario.s_alice sidA _ sidA _ Hwf Hin Hin Hl).
Defined.

End Presence.
