(* ===== verification/Faults.v ===== *)
(** * Exceptions that escape: the two races of the [async] handlers

    No handler catches anything.  Two continuations throw at the end of
    a race with another transition, on runs reachable with any
    well-formed (string) payloads:
    - [login] resumed after [bcrypt.compare] (line 104) when its socket
      disconnected while bcrypt ran: [onlineUsers[socket.id]] is
      [undefined] and the assignment throws a [TypeError], after
      [sessions[token] = username] (line 102) has stored a session that
      no client ever receives;
    - [register] resumed at [User.create] (line 72) when another socket
      registered the same name between its [findOne] and its [create]:
      the unique index rejects the insertion and the socket never gets
      an answer.
    Both escape as unhandled promise rejections, which stop a Node.js
    process started with the default [--unhandled-rejections=throw]. *)

From S2P Require Import Prelude JsObject Hex Credentials Server Registry Scenario.
From stdpp Require Import gmap.

Module Faults.
Import Server Registry.

(** ** Properties *)

(** C25: the login race is reachable: alice's socket disconnects while
    bcrypt compares her password; the continuation stores a session for
    her token, then throws a [TypeError] that nothing catches.  The
    session stays in [sessions] although no client received the token
    (spec section 7 requires a reply to a gone connection to be
    discarded). *)
Theorem login_after_disconnect_faults :
  @reachable Credentials.demo_hasher Scenario.users0 Scenario.late_login /\
  ~ In sidA (conns Scenario.late_login) /\
  faults Scenario.late_login = [TypeError sidA] /\
  JsObject.get_own (Hex.new_token Scenario.bytesA) (sessions Scenario.late_login) = Some "alice"%string /\
  ~ In (sidA, EvLoginSuccess (UStr "alice") (Hex.new_token Scenario.bytesA))
       (outbox Scenario.late_login).
Proof.
  split; [exact Scenario.late_login_reachable|].
  split; [vm_compute; intuition discriminate|].
  split; [vm_compute; reflexivity|]. split; [vm_compute; reflexivity|].
  vm_compute. intuition discriminate.
Qed.

(** C26: the register race is reachable: A and B both register carol;
    both [findOne] calls find nothing before either [create] runs; A's
    insertion succeeds and B's is rejected by the unique index with an
    exception nothing catches, so B never receives an answer (spec
    section 4.1: a duplicate name is reported to the client). *)
Theorem register_race_faults :
  @reachable Credentials.demo_hasher ∅ Scenario.race /\
  faults Scenario.race = [DbRejected sidB (Credentials.DuplicateKey "carol")] /\
  outbox Scenario.race = [(sidA, EvRegisterSuccess "Registration successful")].
Proof.
  split; [exact Scenario.race_reachable|].
  split; vm_compute; reflexivity.
Qed.

End Faults.
