(* ===== verification/Completion.v ===== *)
(** * [register] and [login] run to completion

    A socket's [register] (server.js lines 59-75) and [login] (lines
    80-108) are cut at their [await]s.  When nothing else runs between
    the halves, resuming the handler's continuations one after the
    other gives the handler's whole outcome: exactly one reply to the
    socket, the right one for each branch of the code, the insertion of
    the user with the digest bcrypt produced, or the session, binding
    and broadcast of a successful login; no continuation is left behind
    and no exception escapes. *)

From S2P Require Import Prelude JsObject Hex Credentials Server Registry Scenario.
From stdpp Require Import gmap.
From Stdlib Require Import ZArith.

Module Completion.
Import Server Registry.

(** ** The last suspended handler *)

Lemma nth_error_app_last {A} (l : list A) x : nth_error (l ++ [x]) (List.length l) = Some x.
Proof. induction l; cbn; auto. Qed.

Lemma remove_at_app_last {A} (l : list A) x : remove_at (List.length l) (l ++ [x]) = l.
Proof. induction l as [|y l IH]; cbn; [done|]. by rewrite IH. Qed.

Section Runs.
Context `{HS : Credentials.Hasher}.

(** Resuming the handler that suspended last runs its continuation on
    the world it suspended in. *)
Lemma resume_at_last w t i :
  resume_at (List.length (pending w)) i (set_pending (fun q => q ++ [t]) w) = run (resume t i) w.
Proof.
  unfold resume_at. cbn [pending set_pending]. rewrite nth_error_app_last.
  f_equal. destruct w. unfold set_pending. cbn. by rewrite remove_at_app_last.
Qed.

(** There is nothing to resume past the end of [pending]. *)
Lemma resume_at_none w n i : List.length (pending w) <= n -> resume_at n i w = w.
Proof. intros Hn. unfold resume_at. by rewrite (proj2 (nth_error_None _ _) Hn). Qed.

(** An answer leaves [pending] as it was: nothing to resume at its end. *)
Lemma resume_at_answered w f n i :
  n = List.length (pending w) -> resume_at n i (set_outbox f w) = set_outbox f w.
Proof. intros ->. apply resume_at_none. done. Qed.

Lemma is_live_In sid w : In sid (conns w) -> is_live sid w = true.
Proof. intros H. apply existsb_exists. eauto using String.eqb_refl. Qed.

Lemma run_emit sid ev w :
  is_live sid w = true -> run (socket_emit sid ev) w = set_outbox (fun o => o ++ [(sid, ev)]) w.
Proof. intros H. unfold run, socket_emit. cbv [mbind M_bind hget hmodify mret M_ret]. by rewrite H. Qed.

(** ** [register], stage by stage *)

Lemma deliver_register w sid u p :
  is_live sid w = true ->
  deliver sid (Register u p) w =
  if negb (nonempty u) || negb (nonempty p)
  then set_outbox (fun o => o ++ [(sid, EvAuthError "Username and password required")]) w
  else set_pending (fun q => q ++ [RegisterAfterFind sid u p]) w.
Proof.
  intros H. unfold deliver. cbn [dispatch]. unfold on_register.
  destruct (negb _ || negb _); [by apply run_emit|reflexivity].
Qed.

Lemma run_register_find w sid u p i :
  is_live sid w = true ->
  run (resume (RegisterAfterFind sid u p) i) w =
  match db w !! u with
  | Some _ => set_outbox (fun o => o ++ [(sid, EvAuthError "Username already exists")]) w
  | None => set_pending (fun q => q ++ [RegisterAfterHash sid u p]) w
  end.
Proof.
  intros H. cbn [resume]. unfold register_after_findOne, Credentials.find_one.
  unfold run. cbv [mbind M_bind hget]. destruct (db w !! u); [|reflexivity].
  exact (run_emit sid _ w H).
Qed.

Lemma run_register_hash w sid u p i :
  run (resume (RegisterAfterHash sid u p) i) w =
  set_pending (fun q => q ++ [RegisterAfterCreate sid u (Credentials.hash p (in_salt i))]) w.
Proof. reflexivity. Qed.

Lemma run_register_create w sid u h i :
  is_live sid w = true -> db w !! u = None ->
  run (resume (RegisterAfterCreate sid u h) i) w =
  set_outbox (fun o => o ++ [(sid, EvRegisterSuccess "Registration successful")])
    (set_db (<[u := Credentials.mkUser u h (in_now i)]> (db w)) w).
Proof.
  intros H Hu. cbn [resume]. unfold register_after_create, Credentials.create_user.
  unfold run. cbv [mbind M_bind hget hmodify]. rewrite Hu.
  exact (run_emit sid _ (set_db _ w) H).
Qed.

(** ** [login], stage by stage *)

Lemma deliver_login w sid u p :
  deliver sid (Login u p) w = set_pending (fun q => q ++ [LoginAfterFind sid u p]) w.
Proof. reflexivity. Qed.

Lemma run_login_find w sid u p i :
  is_live sid w = true ->
  run (resume (LoginAfterFind sid u p) i) w =
  match db w !! u with
  | Some r => set_pending (fun q => q ++ [LoginAfterCompare sid u p (Credentials.passwordHash r)]) w
  | None => set_outbox (fun o => o ++ [(sid, EvAuthError "Invalid username or password")]) w
  end.
Proof.
  intros H. cbn [resume]. unfold login_after_findOne, Credentials.find_one.
  unfold run. cbv [mbind M_bind hget]. destruct (db w !! u); [reflexivity|].
  exact (run_emit sid _ w H).
Qed.

(** The registry after a successful login binds [sid] to [u]. *)
Definition login_registry (w : world) (sid u : string) : JsObject.obj entry :=
  JsObject.set sid (mkEntry sid (UStr u)) (onlineUsers w).

Lemma run_login_compare w sid u p h i :
  wf w -> In sid (conns w) ->
  run (resume (LoginAfterCompare sid u p h) i) w =
  if negb (Credentials.compare p h)
  then set_outbox (fun o => o ++ [(sid, EvAuthError "Invalid username or password")]) w
  else if already_online w u
  then set_outbox (fun o => o ++ [(sid, EvAuthError "User already logged in")]) w
  else
    let tok := Hex.new_token (in_bytes i) in
    set_outbox (fun o => o ++ map (fun c => (c, EvOnlineUsers (JsObject.values (login_registry w sid u))))
                                  (conns w))
      (set_outbox (fun o => o ++ [(sid, EvLoginSuccess (UStr u) tok)])
         (set_onlineUsers (fun _ => login_registry w sid u)
            (set_sessions (JsObject.set tok u) w))).
Proof.
  intros Hwf Hin. pose proof (is_live_In sid w Hin) as Hl.
  destruct (wf_live_lookup w sid Hwf Hin) as (e & He & Hs).
  cbn [resume]. unfold login_after_compare.
  destruct (negb (Credentials.compare p h)); [by apply run_emit|].
  unfold run. cbv [mbind M_bind hget]. destruct (already_online w u); [by apply run_emit|].
  unfold finish_login, bind_username, socket_emit, broadcast_presence, io_emit.
  cbv [mbind M_bind hget hmodify mret M_ret]. simpl_world. rewrite He.
  unfold is_live in *. simpl_world. rewrite Hl. simpl_world. rewrite Hs. reflexivity.
Qed.

(** ** Properties *)

(** C12: a [register] from a connected socket, run to completion, answers
    the socket exactly once: ["Username and password required"] for an
    empty field, ["Username already exists"] for a stored name (the
    collection unchanged), and otherwise inserts the user with the
    digest of the password under the drawn salt and the insertion time,
    and answers ["Registration successful"].  Nothing else changes. *)
Theorem register_completes w sid u p i1 i2 i3 :
  In sid (conns w) ->
  let k := List.length (pending w) in
  let w' := resume_at k i3 (resume_at k i2 (resume_at k i1 (deliver sid (Register u p) w))) in
  pending w' = pending w /\ faults w' = faults w /\ conns w' = conns w /\
  onlineUsers w' = onlineUsers w /\ sessions w' = sessions w /\
  if negb (nonempty u) || negb (nonempty p) then
    db w' = db w /\ outbox w' = outbox w ++ [(sid, EvAuthError "Username and password required")]
  else
    match db w !! u with
    | Some _ =>
        db w' = db w /\ outbox w' = outbox w ++ [(sid, EvAuthError "Username already exists")]
    | None =>
        db w' = <[u := Credentials.mkUser u (Credentials.hash p (in_salt i2)) (in_now i3)]> (db w) /\
        outbox w' = outbox w ++ [(sid, EvRegisterSuccess "Registration successful")]
    end.
Proof.
  intros Hin k w'. pose proof (is_live_In sid w Hin) as Hl. unfold w', k.
  rewrite deliver_register by exact Hl.
  destruct (negb (nonempty u) || negb (nonempty p)).
  { rewrite !resume_at_answered by done. done. }
  rewrite resume_at_last, run_register_find by exact Hl.
  destruct (db w !! u) as [r|] eqn:Hu.
  { rewrite !resume_at_answered by done. done. }
  rewrite resume_at_last, run_register_hash, resume_at_last, run_register_create by done.
  done.
Qed.

(** C13: a [login] from a connected socket of a well-formed world, run
    to completion, answers the socket exactly once:
    ["Invalid username or password"] for an unknown name or a password
    bcrypt rejects, ["User already logged in"] when the name is bound
    anywhere, and otherwise stores the session of the drawn token, binds
    the socket to the name, answers [login_success] with the token and
    broadcasts the new registry to every connected socket. *)
Theorem login_completes w sid u p i1 i2 :
  wf w -> In sid (conns w) ->
  let k := List.length (pending w) in
  let w' := resume_at k i2 (resume_at k i1 (deliver sid (Login u p) w)) in
  let invalid := [(sid, EvAuthError "Invalid username or password")] in
  pending w' = pending w /\ faults w' = faults w /\ conns w' = conns w /\ db w' = db w /\
  match db w !! u with
  | Some r =>
      if Credentials.compare p (Credentials.passwordHash r) then
        if already_online w u then
          onlineUsers w' = onlineUsers w /\ sessions w' = sessions w /\
          outbox w' = outbox w ++ [(sid, EvAuthError "User already logged in")]
        else
          let tok := Hex.new_token (in_bytes i2) in
          onlineUsers w' = login_registry w sid u /\
          sessions w' = JsObject.set tok u (sessions w) /\
          outbox w' = outbox w ++ (sid, EvLoginSuccess (UStr u) tok) ::
            map (fun c => (c, EvOnlineUsers (JsObject.values (login_registry w sid u)))) (conns w)
      else onlineUsers w' = onlineUsers w /\ sessions w' = sessions w /\ outbox w' = outbox w ++ invalid
  | None => onlineUsers w' = onlineUsers w /\ sessions w' = sessions w /\ outbox w' = outbox w ++ invalid
  end.
Proof.
  intros Hwf Hin k w' invalid. pose proof (is_live_In sid w Hin) as Hl. unfold w', k.
  rewrite deliver_login, resume_at_last, run_login_find by exact Hl.
  destruct (db w !! u) as [r|] eqn:Hu; [|rewrite resume_at_answered by done; done].
  rewrite resume_at_last, run_login_compare by done.
  destruct (Credentials.compare p (Credentials.passwordHash r)); cbn [negb]; [|done].
  destruct (already_online w u); [done|]. cbn. by rewrite <- app_assoc.
Qed.

End Runs.

(** ** Witnesses *)

Definition w_fresh : world := connect sidA (init_world ∅).

Lemma register_completes_witness :
  In sidA (conns w_fresh) /\
  let k := List.length (pending w_fresh) in
  let w' := @resume_at Credentials.demo_hasher k Scenario.inA
              (resume_at k Scenario.inA (resume_at k Scenario.inA
                 (deliver sidA (Register "alice" "pw1") w_fresh))) in
  pending w' = pending w_fresh /\ faults w' = faults w_fresh /\ conns w' = conns w_fresh /\
  onlineUsers w' = onlineUsers w_fresh /\ sessions w' = sessions w_fresh /\
  if negb (nonempty "alice") || negb (nonempty "pw1") then
    db w' = db w_fresh /\
    outbox w' = outbox w_fresh ++ [(sidA, EvAuthError "Username and password required")]
  else
    match db w_fresh !! "alice"%string with
    | Some _ => db w' = db w_fresh /\
        outbox w' = outbox w_fresh ++ [(sidA, EvAuthError "Username already exists")]
    | None =>
        db w' = <[("alice"%string) := Credentials.mkUser "alice"
                   (@Credentials.hash Credentials.demo_hasher "pw1" (in_salt Scenario.inA))
                   (in_now Scenario.inA)]> (db w_fresh) /\
        outbox w' = outbox w_fresh ++ [(sidA, EvRegisterSuccess "Registration successful")]
    end.
Proof.
  assert (Hin : In sidA (conns w_fresh)) by (cbn; tauto).
  split; [exact Hin|].
  exact (@register_completes Credentials.demo_hasher w_fresh sidA "alice" "pw1"
           Scenario.inA Scenario.inA Scenario.inA Hin).
Defined.

Lemma s_registered_wf : wf Scenario.s_registered.
Proof.
  apply (@wf_reachable Credentials.demo_hasher Scenario.users0).
  unfold Scenario.s_registered. Scenario.reach.
Qed.

Lemma login_completes_witness :
  wf Scenario.s_registered /\ In sidA (conns Scenario.s_registered) /\
  let w := Scenario.s_registered in
  let k := List.length (pending w) in
  let w' := @resume_at Credentials.demo_hasher k Scenario.inA
              (resume_at k Scenario.inA (deliver sidA (Login "alice" "pw1") w)) in
  let invalid := [(sidA, EvAuthError "Invalid username or password")] in
  pending w' = pending w /\ faults w' = faults w /\ conns w' = conns w /\ db w' = db w /\
  match db w !! "alice"%string with
  | Some r =>
      if @Credentials.compare Credentials.demo_hasher "pw1" (Credentials.passwordHash r) then
        if already_online w "alice" then
          onlineUsers w' = onlineUsers w /\ sessions w' = sessions w /\
          outbox w' = outbox w ++ [(sidA, EvAuthError "User already logged in")]
        else
          let tok := Hex.new_token (in_bytes Scenario.inA) in
          onlineUsers w' = login_registry w sidA "alice" /\
          sessions w' = JsObject.set tok "alice" (sessions w) /\
          outbox w' = outbox w ++ (sidA, EvLoginSuccess (UStr "alice") tok) ::
            map (fun c => (c, EvOnlineUsers (JsObject.values (login_registry w sidA "alice")))) (conns w)
      else onlineUsers w' = onlineUsers w /\ sessions w' = sessions w /\ outbox w' = outbox w ++ invalid
  | None => onlineUsers w' = onlineUsers w /\ sessions w' = sessions w /\ outbox w' = outbox w ++ invalid
  end.
Proof.
  assert (Hin : In sidA (conns Scenario.s_registered)) by (vm_compute; tauto).
  split; [exact s_registered_wf|]. split; [exact Hin|].
  exact (@login_completes Credentials.demo_hasher Scenario.s_registered sidA "alice" "pw1"
           Scenario.inA Scenario.inA s_registered_wf Hin).
Defined.

End Completion.
