(* ===== verification/Auth.v ===== *)
(** * Authentication: who can be bound to a name

    A connection's [username] becomes a string only in [login] (line
    104), after [bcrypt.compare] accepted the password against the hash
    [findOne] returned, and in [auto_login] (line 117), with the name a
    session holds.  Sessions name stored users (invariant I2 of
    [Sessions]), so in every reachable state every name a connection is
    bound to is a user of the collection; and a login continuation binds
    only when the presented password hashes to the stored hash. *)

From S2P Require Import Prelude JsObject Hex Credentials Server Registry Scenario Sessions.
From stdpp Require Import gmap.

Module Auth.
Import Server Registry Sessions.

(** Every string [username] of [onlineUsers] is a user of [d]. *)
Definition bound_ok (d : Credentials.users) (o : JsObject.obj entry) : Prop :=
  forall k e u, JsObject.get_own k o = Some e -> username e = UStr u -> is_Some (d !! u).

(** ** Lemmas *)

Lemma bound_ok_set d o sid x v :
  bound_ok d o -> (forall u, v = UStr u -> is_Some (d !! u)) ->
  bound_ok d (JsObject.set sid (mkEntry x v) o).
Proof.
  intros Hb Hv k e u. destruct (String.eqb_spec sid k) as [<-|Hne].
  - rewrite JsObject.get_own_set_eq. intros [= <-]. apply Hv.
  - rewrite JsObject.get_own_set_ne by done. apply Hb.
Qed.

Lemma bound_ok_delete d o sid : bound_ok d o -> bound_ok d (JsObject.delete sid o).
Proof.
  intros Hb k e u. destruct (String.eqb_spec sid k) as [<-|Hne].
  - by rewrite JsObject.get_own_delete_eq.
  - rewrite JsObject.get_own_delete_ne by done. apply Hb.
Qed.

Lemma bound_ok_create d o u h now d' :
  bound_ok d o -> Credentials.create_user d u h now = inr d' -> bound_ok d' o.
Proof.
  intros Hb Hc k e u' Hk Hu. eapply lookup_weaken_is_Some; [|eapply create_user_subseteq; exact Hc].
  eauto.
Qed.

(** What [auto_login] binds is a stored user when it is a string. *)
Lemma session_username_stored d s tok u :
  sok d s -> session_username (JsObject.lookup tok s) = UStr u -> is_Some (d !! u).
Proof.
  unfold JsObject.lookup. intros Hs.
  destruct (JsObject.get_own tok s) as [u'|] eqn:E.
  - intros [= <-]. by apply (Hs tok).
  - destruct (JsObject.is_proto_member tok); intros Hc; discriminate Hc.
Qed.

Definition auth_bound (w : world) : Prop := auth_inv w /\ bound_ok (db w) (onlineUsers w).

Ltac close_bound :=
  unfold auth_bound, auth_inv in *; simpl_world; destruct_and?;
  repeat split;
  first
    [ assumption
    | eapply sok_create; eassumption
    | eapply tasks_ok_create; [|eassumption]; eauto with sessions
    | eapply bound_ok_create; eassumption
    | apply Forall_app; split; eauto with sessions
    | apply bound_ok_delete; assumption
    | apply bound_ok_set; [assumption|]; intros ?u ?Hv;
      first [ discriminate Hv
            | injection Hv as <-; eapply task_ok_login_user; eassumption
            | eapply session_username_stored; eassumption ]
    | eauto with sessions ].

Lemma deliver_bound sid ev w : auth_bound w -> auth_bound (deliver sid ev w).
Proof. intros Hi. unfold deliver. start_run. destruct ev; wp_server; close_bound. Qed.

Lemma resume_at_bound `{Credentials.Hasher} n i w : auth_bound w -> auth_bound (resume_at n i w).
Proof.
  intros Hi. unfold resume_at. destruct (nth_error (pending w) n) as [t|] eqn:Hn; [|done].
  assert (Ht : task_ok (db w) t) by (eapply Forall_nth_error; [apply Hi|exact Hn]).
  start_run. destruct t; wp_server; close_bound.
Qed.

Lemma bound_step `{Credentials.Hasher} w w' : auth_bound w -> w ~> w' -> auth_bound w'.
Proof.
  intros Hi Hs. split; [eapply auth_step; [apply Hi|exact Hs]|].
  destruct Hs as [l Hs]. destruct Hs.
  - apply bound_ok_set; [apply Hi|]. intros u Hu. discriminate Hu.
  - apply bound_ok_delete, Hi.
  - by apply deliver_bound.
  - by apply resume_at_bound.
Qed.

Lemma bound_reachable `{Credentials.Hasher} users0 w : reachable users0 w -> auth_bound w.
Proof.
  intros Hr. apply (rtc_invariant step auth_bound (init_world users0) w bound_step); [|exact Hr].
  split; [apply (auth_reachable users0), reachable_init|]. intros k e u Hk. discriminate Hk.
Qed.

(** ** Properties *)

(** C10: in every reachable state, every name a connection is bound to
    is a user of the [User] collection: no socket is online under a name
    nobody registered. *)
Theorem bound_names_registered `{Credentials.Hasher} users0 w k e u :
  reachable users0 w -> JsObject.get_own k (onlineUsers w) = Some e -> username e = UStr u ->
  is_Some (db w !! u).
Proof. intros Hr. apply (bound_reachable users0 w Hr). Qed.

(** C11: a login continuation that changes [onlineUsers] does so only
    when the password presented hashes (under some salt) to the hash
    stored for the user: a connection is bound by [login] only with the
    right password. *)
Theorem login_checks_password `{Credentials.Hasher} users0 w n i sid u p h :
  reachable users0 w -> nth_error (pending w) n = Some (LoginAfterCompare sid u p h) ->
  onlineUsers (resume_at n i w) <> onlineUsers w ->
  exists r s, db w !! u = Some r /\ Credentials.passwordHash r = h /\ h = Credentials.hash p s.
Proof.
  intros Hr Hn. destruct (auth_reachable users0 w Hr) as (_ & _ & Ht).
  destruct (Forall_nth_error _ _ _ _ Ht Hn) as (r & Hdb & Hh).
  unfold resume_at. rewrite Hn. start_run. wp_server; simpl_world; intros Hne;
    try (exfalso; by apply Hne).
  all: match goal with E : negb (Credentials.compare _ _) = false |- _ =>
         apply negb_false_iff, Credentials.compare_sound in E as [s ->] end.
  all: by exists r, s.
Qed.

(** ** Witnesses *)

Lemma bound_names_registered_witness :
  @reachable Credentials.demo_hasher Scenario.users0 Scenario.s_alice /\
  JsObject.get_own sidA (onlineUsers Scenario.s_alice) = Some (mkEntry sidA (UStr "alice")) /\
  username (mkEntry sidA (UStr "alice")) = UStr "alice" /\
  is_Some (db Scenario.s_alice !! "alice"%string).
Proof.
  split; [exact Scenario.s_alice_reachable|]. split; [vm_compute; reflexivity|].
  split; [reflexivity|].
  exact (bound_names_registered _ _ _ _ _ Scenario.s_alice_reachable
           (eq_refl : JsObject.get_own sidA (onlineUsers Scenario.s_alice) = Some (mkEntry sidA (UStr "alice")))
           eq_refl).
Defined.

(** alice's login suspended at [bcrypt.compare]. *)
Definition w_comparing : world :=
  @resume_at Credentials.demo_hasher 0 Scenario.inA
    (deliver sidA (Login "alice" "pw1") Scenario.s_registered).

Lemma w_comparing_reachable : @reachable Credentials.demo_hasher Scenario.users0 w_comparing.
Proof. unfold w_comparing, Scenario.s_registered. Scenario.reach. Qed.

Lemma login_checks_password_witness :
  @reachable Credentials.demo_hasher Scenario.users0 w_comparing /\
  nth_error (pending w_comparing) 0 =
    Some (LoginAfterCompare sidA "alice" "pw1" (Credentials.demo_hash "pw1" tt)) /\
  onlineUsers (@resume_at Credentials.demo_hasher 0 Scenario.inA w_comparing) <> onlineUsers w_comparing /\
  exists r s, db w_comparing !! "alice"%string = Some r /\
    Credentials.passwordHash r = Credentials.demo_hash "pw1" tt /\
    Credentials.demo_hash "pw1" tt = @Credentials.hash Credentials.demo_hasher "pw1" s.
Proof.
  assert (Hn : nth_error (pending w_comparing) 0 =
    Some (LoginAfterCompare sidA "alice" "pw1" (Credentials.demo_hash "pw1" tt)))
    by (vm_compute; reflexivity).
  assert (Hne : onlineUsers (@resume_at Credentials.demo_hasher 0 Scenario.inA w_comparing)
                <> onlineUsers w_comparing) by (vm_compute; discriminate).
  split; [exact w_comparing_reachable|]. split; [exact Hn|]. split; [exact Hne|].
  exact (login_checks_password _ _ _ _ _ _ _ _ w_comparing_reachable Hn Hne).
Defined.

End Auth.
