(* ===== verification/Client.v ===== *)
(** * The browser client: [src/client/script.js]

    The page keeps its state in top-level [let]s (lines 25-29), writes
    events with [socket.emit], and updates the DOM from the server's
    events.  The DOM is modelled by what the code writes into it: the
    [innerHTML] of [messages] as a string, the [li] items of [usersList]
    and [privateList] (their text and the chat their [onclick] opens),
    the title, which of [authBox]/[chatApp] is shown, the value of the
    message input, and the [alert]s.  [localStorage] is one optional
    string.

    Every handler is a computation of the handler monad of [Prelude] over
    the client state; [TypeError] is what a property access on
    [undefined] throws.  The [private_message] handler (lines 121-145)
    ends in [};] where [});] closes the call of [socket.on], so the file
    as written is a syntax error and none of it runs in a browser; the
    model gives each handler the meaning its body has once that
    parenthesis is restored. *)

From S2P Require Import Prelude JsObject Server.
From stdpp Require Import pretty.
From Stdlib Require Import NArith.

Module Client.
Import Server.

(** ** Data *)

Inductive screen := AuthScreen | ChatScreen.
Inductive chat_kind := PublicChat | PrivateChat.

(** A private conversation: [{ username, messages, unread, socketId }]
    (lines 125-130, 179-184); a message is [{ from, text }]. *)
Record pchat := mkChat {
  pc_username : uval;
  pc_messages : list (uval * string);
  pc_unread : nat;
  pc_socketId : string
}.

(** An [li]: its [innerText] and the [openPrivateChat] call of its
    [onclick]. *)
Record item := mkItem { li_text : string; li_opens : string * uval }.

Record cstate := mkC {
  myUsername : uval;
  myId : string;
  sessionToken : option string;
  storage : option string;
  currentChat : chat_kind;
  activePrivateSocketId : option string;
  privateChats : JsObject.obj pchat;
  shown : screen;
  messagesHTML : string;
  usersList : list item;
  privateList : list item;
  chatTitle : string;
  msgInput : string;
  sent : list cevent;
  alerts : list string
}.

Inductive cerror := CTypeError.

Abbreviation C := (M cstate cerror).

(** The page as loaded: [sessionToken] is read from [localStorage]
    (line 26). *)
Definition init_client (stored : option string) : cstate :=
  mkC (UStr "") "" stored stored PublicChat None JsObject.empty AuthScreen "" [] []
    "Public Chat" "" [] [].

(** ** JavaScript values as the page prints them *)

(** [String(v)] of a username value: [Object.prototype] members are
    built-in functions (the [constructor] is [Object]) or, for
    [__proto__], [Object.prototype] itself. *)
Definition render (v : uval) : string :=
  match v with
  | UStr s => s
  | UNull => "null"
  | UUndef => "undefined"
  | UProto n =>
      if String.eqb n "__proto__" then "[object Object]"
      else "function " ++ (if String.eqb n "constructor" then "Object" else n)
           ++ "() { [native code] }"
  end.

(** [a === b] on username values: strings by content, the built-ins by
    identity. *)
Definition uval_eqb (a b : uval) : bool :=
  match a, b with
  | UStr s, UStr t => String.eqb s t
  | UNull, UNull | UUndef, UUndef => true
  | UProto n, UProto m => String.eqb n m
  | _, _ => false
  end.

(** The white space [String.prototype.trim] removes, on 8-bit
    characters: tab, line feed, vertical tab, form feed, carriage
    return, space and no-break space. *)
Definition is_ws (c : ascii) : bool :=
  let n := nat_of_ascii c in
  (n =? 9) || (n =? 10) || (n =? 11) || (n =? 12) || (n =? 13) || (n =? 32) || (n =? 160).

Fixpoint drop_ws (l : list ascii) : list ascii :=
  match l with
  | c :: l' => if is_ws c then drop_ws l' else l
  | [] => []
  end.

Definition trim (s : string) : string :=
  string_of_list_ascii (rev (drop_ws (rev (drop_ws (list_ascii_of_string s))))).

(** [`<p><b>${from}:</b> ${text}</p>`]: the template of lines 114, 144,
    167 and 192, spliced into [innerHTML] without escaping. *)
Definition paragraph (from text : string) : string :=
  "<p><b>" ++ from ++ ":</b> " ++ text ++ "</p>".

(** ** State updates *)

Definition set_myUsername (g : uval -> uval) (s : cstate) : cstate :=
  mkC (g (myUsername s)) (myId s) (sessionToken s) (storage s) (currentChat s)
    (activePrivateSocketId s) (privateChats s) (shown s) (messagesHTML s) (usersList s)
    (privateList s) (chatTitle s) (msgInput s) (sent s) (alerts s).
Definition set_myId (g : string -> string) (s : cstate) : cstate :=
  mkC (myUsername s) (g (myId s)) (sessionToken s) (storage s) (currentChat s)
    (activePrivateSocketId s) (privateChats s) (shown s) (messagesHTML s) (usersList s)
    (privateList s) (chatTitle s) (msgInput s) (sent s) (alerts s).
Definition set_sessionToken (g : option string -> option string) (s : cstate) : cstate :=
  mkC (myUsername s) (myId s) (g (sessionToken s)) (storage s) (currentChat s)
    (activePrivateSocketId s) (privateChats s) (shown s) (messagesHTML s) (usersList s)
    (privateList s) (chatTitle s) (msgInput s) (sent s) (alerts s).
Definition set_storage (g : option string -> option string) (s : cstate) : cstate :=
  mkC (myUsername s) (myId s) (sessionToken s) (g (storage s)) (currentChat s)
    (activePrivateSocketId s) (privateChats s) (shown s) (messagesHTML s) (usersList s)
    (privateList s) (chatTitle s) (msgInput s) (sent s) (alerts s).
Definition set_currentChat (g : chat_kind -> chat_kind) (s : cstate) : cstate :=
  mkC (myUsername s) (myId s) (sessionToken s) (storage s) (g (currentChat s))
    (activePrivateSocketId s) (privateChats s) (shown s) (messagesHTML s) (usersList s)
    (privateList s) (chatTitle s) (msgInput s) (sent s) (alerts s).
Definition set_activePrivateSocketId (g : option string -> option string) (s : cstate) : cstate :=
  mkC (myUsername s) (myId s) (sessionToken s) (storage s) (currentChat s)
    (g (activePrivateSocketId s)) (privateChats s) (shown s) (messagesHTML s) (usersList s)
    (privateList s) (chatTitle s) (msgInput s) (sent s) (alerts s).
Definition set_privateChats (g : JsObject.obj pchat -> JsObject.obj pchat) (s : cstate) : cstate :=
  mkC (myUsername s) (myId s) (sessionToken s) (storage s) (currentChat s)
    (activePrivateSocketId s) (g (privateChats s)) (shown s) (messagesHTML s) (usersList s)
    (privateList s) (chatTitle s) (msgInput s) (sent s) (alerts s).
Definition set_shown (g : screen -> screen) (s : cstate) : cstate :=
  mkC (myUsername s) (myId s) (sessionToken s) (storage s) (currentChat s)
    (activePrivateSocketId s) (privateChats s) (g (shown s)) (messagesHTML s) (usersList s)
    (privateList s) (chatTitle s) (msgInput s) (sent s) (alerts s).
Definition set_messagesHTML (g : string -> string) (s : cstate) : cstate :=
  mkC (myUsername s) (myId s) (sessionToken s) (storage s) (currentChat s)
    (activePrivateSocketId s) (privateChats s) (shown s) (g (messagesHTML s)) (usersList s)
    (privateList s) (chatTitle s) (msgInput s) (sent s) (alerts s).
Definition set_usersList (g : list item -> list item) (s : cstate) : cstate :=
  mkC (myUsername s) (myId s) (sessionToken s) (storage s) (currentChat s)
    (activePrivateSocketId s) (privateChats s) (shown s) (messagesHTML s) (g (usersList s))
    (privateList s) (chatTitle s) (msgInput s) (sent s) (alerts s).
Definition set_privateList (g : list item -> list item) (s : cstate) : cstate :=
  mkC (myUsername s) (myId s) (sessionToken s) (storage s) (currentChat s)
    (activePrivateSocketId s) (privateChats s) (shown s) (messagesHTML s) (usersList s)
    (g (privateList s)) (chatTitle s) (msgInput s) (sent s) (alerts s).
Definition set_chatTitle (g : string -> string) (s : cstate) : cstate :=
  mkC (myUsername s) (myId s) (sessionToken s) (storage s) (currentChat s)
    (activePrivateSocketId s) (privateChats s) (shown s) (messagesHTML s) (usersList s)
    (privateList s) (g (chatTitle s)) (msgInput s) (sent s) (alerts s).
Definition set_msgInput (g : string -> string) (s : cstate) : cstate :=
  mkC (myUsername s) (myId s) (sessionToken s) (storage s) (currentChat s)
    (activePrivateSocketId s) (privateChats s) (shown s) (messagesHTML s) (usersList s)
    (privateList s) (chatTitle s) (g (msgInput s)) (sent s) (alerts s).
Definition set_sent (g : list cevent -> list cevent) (s : cstate) : cstate :=
  mkC (myUsername s) (myId s) (sessionToken s) (storage s) (currentChat s)
    (activePrivateSocketId s) (privateChats s) (shown s) (messagesHTML s) (usersList s)
    (privateList s) (chatTitle s) (msgInput s) (g (sent s)) (alerts s).
Definition set_alerts (g : list string -> list string) (s : cstate) : cstate :=
  mkC (myUsername s) (myId s) (sessionToken s) (storage s) (currentChat s)
    (activePrivateSocketId s) (privateChats s) (shown s) (messagesHTML s) (usersList s)
    (privateList s) (chatTitle s) (msgInput s) (sent s) (g (alerts s)).

Definition emit (ev : cevent) : C unit := hmodify (set_sent (fun l => l ++ [ev])).
Definition alert (msg : string) : C unit := hmodify (set_alerts (fun l => l ++ [msg])).

(** A property key made from [null] or a string ([privateChats[null]]
    reads the key ["null"]). *)
Definition key_of (k : option string) : string :=
  match k with Some a => a | None => "null" end.

(** ** Handlers *)

(** Lines 34-38. *)
Definition on_connect : C unit :=
  s ← hget;
  match sessionToken s with
  | Some t => if nonempty t then emit (AutoLogin t) else mret tt
  | None => mret tt
  end.

(** Lines 43-48 ([rawU], [rawP]: the values of the two inputs). *)
Definition register (rawU rawP : string) : C unit :=
  let username := trim rawU in
  let password := trim rawP in
  if negb (nonempty username) || negb (nonempty password)
  then alert "Enter username & password"
  else emit (Register username password).

(** Lines 50-55. *)
Definition login (rawU rawP : string) : C unit :=
  let username := trim rawU in
  let password := trim rawP in
  if negb (nonempty username) || negb (nonempty password)
  then alert "Enter username & password"
  else emit (Login username password).

(** Lines 57-60: the token sent is [null] when there is none. *)
Definition logout : C unit :=
  s ← hget;
  emit (Logout (key_of (sessionToken s))) ;;
  hmodify (set_storage (fun _ => None)).

(** Lines 67-75. *)
Definition on_login_success (username : uval) (token : string) : C unit :=
  hmodify (set_myUsername (fun _ => username)) ;;
  hmodify (set_sessionToken (fun _ => Some token)) ;;
  hmodify (set_storage (fun _ => Some token)) ;;
  hmodify (set_myId (fun _ => render username)) ;;
  hmodify (set_shown (fun _ => ChatScreen)).

(** Lines 77-91. *)
Definition on_logout_success : C unit :=
  hmodify (set_myUsername (fun _ => UStr "")) ;;
  hmodify (set_sessionToken (fun _ => None)) ;;
  hmodify (set_currentChat (fun _ => PublicChat)) ;;
  hmodify (set_activePrivateSocketId (fun _ => None)) ;;
  hmodify (set_privateChats (fun _ => JsObject.empty)) ;;
  hmodify (set_messagesHTML (fun _ => "")) ;;
  hmodify (set_usersList (fun _ => [])) ;;
  hmodify (set_privateList (fun _ => [])) ;;
  hmodify (set_chatTitle (fun _ => "Public Chat")) ;;
  hmodify (set_shown (fun _ => AuthScreen)).

(** The test of line 101: entries kept in the list of online users. *)
Definition listed (me : uval) (u : entry) : bool :=
  truthy (username u) && negb (uval_eqb (username u) me).

Definition user_item (u : entry) : item := mkItem (render (username u)) (socketId u, username u).

(** Lines 98-107. *)
Definition on_online_users (users : list entry) : C unit :=
  s ← hget;
  hmodify (set_usersList (fun _ => map user_item (List.filter (listed (myUsername s)) users))).

(** Lines 112-116. *)
Definition on_public_message_c (from : uval) (message : string) : C unit :=
  s ← hget;
  match currentChat s with
  | PublicChat =>
      if negb (uval_eqb from (myUsername s))
      then hmodify (set_messagesHTML (fun h => (h ++ paragraph (render from) message)%string))
      else mret tt
  | PrivateChat => mret tt
  end.

(** The text of a private-list item (line 206). *)
Definition chat_label (c : pchat) : string :=
  render (pc_username c) ++
  (if 0 <? pc_unread c then " (" ++ pretty (N.of_nat (pc_unread c)) ++ ")" else "").

(** Lines 201-210. *)
Definition updatePrivateList : C unit :=
  s ← hget;
  hmodify (set_privateList (fun _ =>
    map (fun c => mkItem (chat_label c) (pc_socketId c, pc_username c))
        (JsObject.values (privateChats s)))).

(** [if (!privateChats[k]) privateChats[k] = fresh] (lines 124-131,
    178-185). *)
Definition ensure_chat (k : string) (fresh : pchat) : C unit :=
  s ← hget;
  match JsObject.lookup k (privateChats s) with
  | JsObject.Absent => hmodify (set_privateChats (JsObject.set k fresh))
  | _ => mret tt
  end.

(** [f(privateChats[k])] on the entry of [k]: on a built-in read through
    the prototype, [.messages] is [undefined] and the access throws. *)
Definition update_chat (k : string) (f : pchat -> pchat) : C unit :=
  s ← hget;
  match JsObject.lookup k (privateChats s) with
  | JsObject.Own c => hmodify (set_privateChats (JsObject.set k (f c)))
  | _ => mthrow CTypeError
  end.

Definition push_message (m : uval * string) (c : pchat) : pchat :=
  mkChat (pc_username c) (pc_messages c ++ [m]) (pc_unread c) (pc_socketId c).
Definition bump_unread (c : pchat) : pchat :=
  mkChat (pc_username c) (pc_messages c) (S (pc_unread c)) (pc_socketId c).
Definition clear_unread (c : pchat) : pchat :=
  mkChat (pc_username c) (pc_messages c) 0 (pc_socketId c).

(** Is [k] the open private conversation ([currentChat === "private"
    && activePrivateSocketId === socketId], line 138)? *)
Definition viewing (kind : chat_kind) (active : option string) (k : string) : bool :=
  match kind, active with
  | PrivateChat, Some a => String.eqb a k
  | _, _ => false
  end.

(** Lines 121-145. *)
Definition on_private_message_c (from : uval) (message socketId : string) : C unit :=
  ensure_chat socketId (mkChat from [] 0 socketId) ;;
  update_chat socketId (push_message (from, message)) ;;
  s ← hget;
  if negb (viewing (currentChat s) (activePrivateSocketId s) socketId)
  then update_chat socketId bump_unread ;; updatePrivateList
  else hmodify (set_messagesHTML (fun h => (h ++ paragraph (render from) message)%string)).

(** Lines 150-169. *)
Definition sendMessage : C unit :=
  s ← hget;
  let text := msgInput s in
  if negb (nonempty text) then mret tt
  else
    (match currentChat s with
     | PublicChat => emit (PublicMessage text)
     | PrivateChat =>
         let k := key_of (activePrivateSocketId s) in
         emit (PrivateMessage k text) ;;
         update_chat k (push_message (UStr "You", text))
     end) ;;
    hmodify (set_messagesHTML (fun h => (h ++ paragraph "You" text)%string)) ;;
    hmodify (set_msgInput (fun _ => "")).

(** The paragraphs of a conversation (lines 191-193). *)
Definition history (ms : list (uval * string)) : string :=
  foldl (fun h m => (h ++ paragraph (render m.1) m.2)%string) "" ms.

(** Lines 174-196. *)
Definition openPrivateChat (socketId : string) (username : uval) : C unit :=
  hmodify (set_currentChat (fun _ => PrivateChat)) ;;
  hmodify (set_activePrivateSocketId (fun _ => Some socketId)) ;;
  ensure_chat socketId (mkChat username [] 0 socketId) ;;
  s ← hget;
  (match JsObject.lookup socketId (privateChats s) with
   | JsObject.Own c => hmodify (set_privateChats (JsObject.set socketId (clear_unread c)))
   | _ => mret tt
   end) ;;
  hmodify (set_chatTitle (fun _ => ("Private Chat with " ++ render username)%string)) ;;
  hmodify (set_messagesHTML (fun _ => "")) ;;
  s ← hget;
  match JsObject.lookup socketId (privateChats s) with
  | JsObject.Own c =>
      hmodify (set_messagesHTML (fun h => (h ++ history (pc_messages c))%string)) ;;
      updatePrivateList
  | _ => mthrow CTypeError
  end.

(** The server's events, by the [socket.on] table of the page. *)
Definition on_server_event (ev : sevent) : C unit :=
  match ev with
  | EvAuthError msg => alert msg
  | EvRegisterSuccess msg => alert msg
  | EvLoginSuccess u t => on_login_success u t
  | EvLogoutSuccess => on_logout_success
  | EvOnlineUsers users => on_online_users users
  | EvPublicMessage from m => on_public_message_c from m
  | EvPrivateMessage from m sid => on_private_message_c from m sid
  end.

(** What happens on the page: the socket (re)connects, a button is
    pressed with the inputs' values, the message input is typed into, an
    [li] of either list is clicked, or an event arrives. *)
Inductive action :=
| AConnect
| ARegister (username password : string)
| ALogin (username password : string)
| ALogout
| AType (text : string)
| ASend
| AClickUser (n : nat)
| AClickChat (n : nat)
| AReceive (ev : sevent).

Definition click (l : list item) (n : nat) : C unit :=
  match nth_error l n with
  | Some it => openPrivateChat (li_opens it).1 (li_opens it).2
  | None => mret tt
  end.

Definition handle (a : action) : C unit :=
  match a with
  | AConnect => on_connect
  | ARegister u p => register u p
  | ALogin u p => login u p
  | ALogout => logout
  | AType t => hmodify (set_msgInput (fun _ => t))
  | ASend => sendMessage
  | AClickUser n => s ← hget; click (usersList s) n
  | AClickChat n => s ← hget; click (privateList s) n
  | AReceive ev => on_server_event ev
  end.

(** An exception in an event listener is reported on the console; the
    page keeps the state the listener left. *)
Definition act (a : action) (s : cstate) : cstate := exec (handle a) s.

Definition act_all (l : list action) (s : cstate) : cstate := foldl (fun s a => act a s) s l.

End Client.
