(* ===== verification/ClientProps.v ===== *)
(** * Properties of the browser client, and of the client with the server

    - the open private conversation always exists and has no unread
      messages, so sending in it never throws, provided the server's
      events carry socket ids (never [Object.prototype] member names);
      and every event a reachable server writes does;
    - a page that received the server's latest [online_users] list
      shows the users bound now, other than itself (spec P2 on screen);
    - the self-echo of a public message is not shown twice; a private
      message for a closed conversation is counted as unread;
    - a stored token survives a reload and is replayed as [auto_login];
    - a second tab bound to the same name hides the first tab's
      messages. *)

From S2P Require Import Prelude JsObject Hex Credentials Server Registry Scenario Presence Client.
From stdpp Require Import gmap.

Module ClientProps.
Import Server Registry Client.

(** ** Proof support *)

Ltac unf_client :=
  unfold on_connect, register, login, logout, on_login_success, on_logout_success,
    on_online_users, on_public_message_c, updatePrivateList, ensure_chat, update_chat,
    on_private_message_c, sendMessage, openPrivateChat, on_server_event, click, handle,
    emit, alert.

Ltac simpl_client :=
  cbn [myUsername myId sessionToken storage currentChat activePrivateSocketId
    privateChats shown messagesHTML usersList privateList chatTitle msgInput sent alerts
    set_myUsername set_myId set_sessionToken set_storage set_currentChat
    set_activePrivateSocketId set_privateChats set_shown set_messagesHTML set_usersList
    set_privateList set_chatTitle set_msgInput set_sent set_alerts
    pc_username pc_messages pc_unread pc_socketId push_message bump_unread clear_unread
    li_opens li_text fst snd] in *.

Ltac wp_client :=
  repeat (wp_step unf_client; try progress cbv beta iota; try progress simpl_client).

(** ** The open conversation *)

Definition not_proto (k : string) : Prop := JsObject.is_proto_member k = false.

Definition item_ok (it : item) : Prop := not_proto (li_opens it).1.

(** Socket ids in the server's events are never prototype member names
    (they are socket.io ids, [Server.socket_id_ok]). *)
Definition ev_ok (ev : sevent) : Prop :=
  match ev with
  | EvOnlineUsers us => Forall (fun u => not_proto (socketId u)) us
  | EvPrivateMessage _ _ sid => not_proto sid
  | _ => True
  end.

Definition action_ok (a : action) : Prop :=
  match a with AReceive ev => ev_ok ev | _ => True end.

(** Every conversation is filed under its own socket id, which is not
    a prototype member name. *)
Definition chats_ok (o : JsObject.obj pchat) : Prop :=
  Forall (fun kc => pc_socketId kc.2 = kc.1 /\ not_proto kc.1) o.

(** In private mode, the open conversation exists and has no unread
    message. *)
Definition active_ok (kind : chat_kind) (act : option string) (o : JsObject.obj pchat) : Prop :=
  kind = PrivateChat ->
  exists a c, act = Some a /\ JsObject.get_own a o = Some c /\ pc_unread c = 0.

Definition chat_ok (s : cstate) : Prop :=
  active_ok (currentChat s) (activePrivateSocketId s) (privateChats s) /\
  Forall item_ok (usersList s) /\ Forall item_ok (privateList s) /\
  chats_ok (privateChats s).

(** ** Lemmas on the conversations *)

Lemma chats_ok_set o k c :
  chats_ok o -> pc_socketId c = k -> not_proto k -> chats_ok (JsObject.set k c o).
Proof. intros H Hc Hk. apply JsObject.Forall_set; auto. Qed.

Lemma chats_ok_get o k c : chats_ok o -> JsObject.get_own k o = Some c -> pc_socketId c = k /\ not_proto k.
Proof. intros H Hk. exact (JsObject.get_own_Forall _ _ _ _ H Hk). Qed.

Lemma chats_ok_empty : chats_ok JsObject.empty.
Proof. constructor. Qed.

Lemma chats_ok_update o k c c' :
  chats_ok o -> JsObject.get_own k o = Some c -> pc_socketId c' = pc_socketId c ->
  chats_ok (JsObject.set k c' o).
Proof.
  intros H Hk Hc. destruct (chats_ok_get o k c H Hk) as [Hs Hp].
  apply chats_ok_set; [done|congruence|done].
Qed.

Lemma chat_items_ok o :
  chats_ok o ->
  Forall item_ok (map (fun c => mkItem (chat_label c) (pc_socketId c, pc_username c)) (JsObject.values o)).
Proof.
  intros H. apply Forall_map. apply (JsObject.values_Forall (fun c => not_proto (pc_socketId c))).
  eapply Forall_impl; [exact H|]. intros [k c] [-> Hk]. exact Hk.
Qed.

Lemma user_items_ok me us :
  Forall (fun u => not_proto (socketId u)) us ->
  Forall item_ok (map user_item (List.filter (listed me) us)).
Proof.
  intros H. apply Forall_map. apply List.Forall_forall. intros u [Hu _]%filter_In.
  exact (proj1 (List.Forall_forall _ _) H u Hu).
Qed.

Lemma active_ok_zero kind act o k c :
  active_ok kind act o -> pc_unread c = 0 -> active_ok kind act (JsObject.set k c o).
Proof.
  intros H Hc Hp. destruct (H Hp) as (a & c' & -> & Ha & Hu). exists a.
  destruct (String.eqb_spec k a) as [<-|Hne].
  - exists c. by rewrite JsObject.get_own_set_eq.
  - exists c'. by rewrite JsObject.get_own_set_ne.
Qed.

Lemma active_ok_same kind act o k c c' :
  active_ok kind act o -> JsObject.get_own k o = Some c -> pc_unread c' = pc_unread c ->
  active_ok kind act (JsObject.set k c' o).
Proof.
  intros H Hk Hc Hp. destruct (H Hp) as (a & c0 & -> & Ha & Hu). exists a.
  destruct (String.eqb_spec k a) as [<-|Hne].
  - exists c'. rewrite JsObject.get_own_set_eq. split_and!; congruence.
  - exists c0. by rewrite JsObject.get_own_set_ne.
Qed.

Lemma active_ok_other kind act o k c :
  active_ok kind act o -> viewing kind act k = false -> active_ok kind act (JsObject.set k c o).
Proof.
  intros H Hv Hp. destruct (H Hp) as (a & c0 & -> & Ha & Hu). subst kind. exists a, c0.
  cbn in Hv. apply String.eqb_neq in Hv. by rewrite JsObject.get_own_set_ne.
Qed.

Lemma active_ok_open o k c : active_ok PrivateChat (Some k) (JsObject.set k (clear_unread c) o).
Proof. intros _. exists k, (clear_unread c). by rewrite JsObject.get_own_set_eq. Qed.

Lemma active_ok_public act o : active_ok PublicChat act o.
Proof. intros [=]. Qed.

Create HintDb client.
#[export] Hint Resolve chats_ok_set chats_ok_empty chats_ok_update chat_items_ok user_items_ok
  active_ok_zero active_ok_public active_ok_other active_ok_same active_ok_open : client.
#[export] Hint Constructors Forall : client.
#[export] Hint Unfold item_ok not_proto : client.

(** Turn the reads of the walk into facts about [privateChats]. *)
Ltac client_facts :=
  repeat match goal with
  | E : negb _ = true |- _ => apply negb_true_iff in E
  | E : negb _ = false |- _ => apply negb_false_iff in E
  | E : JsObject.lookup ?k (JsObject.set ?k _ _) = _ |- _ =>
      rewrite JsObject.lookup_set_eq in E
  | E : JsObject.Own _ = JsObject.Own _ |- _ => injection E as <-
  | E : JsObject.lookup _ _ = JsObject.Own _ |- _ => apply JsObject.lookup_Own in E
  | E : JsObject.lookup _ _ = JsObject.Absent |- _ => apply JsObject.lookup_Absent in E
  | E : JsObject.lookup ?k ?o = JsObject.Inherited _, Hk : not_proto ?k |- _ =>
      rewrite (JsObject.lookup_not_proto k o Hk) in E; destruct (JsObject.get_own k o); discriminate E
  | E : nth_error ?l _ = Some ?i, H : Forall item_ok ?l |- _ =>
      let Hk := fresh "Hk" in
      pose proof (Forall_nth_error _ _ _ _ H E) as Hk; unfold item_ok in Hk; clear E
  end.

Ltac close_chat :=
  unfold chat_ok in *; simpl_client; destruct_and?; client_facts; rewrite ?JsObject.set_set;
  split_and?; try discriminate; try solve [eauto with client].

Lemma chat_ok_receive ev s : chat_ok s -> ev_ok ev -> chat_ok (act (AReceive ev) s).
Proof. intros Hs Hev. unfold act. apply wp_exec. destruct ev; wp_client; close_chat. Qed.

Lemma chat_ok_act a s : chat_ok s -> action_ok a -> chat_ok (act a s).
Proof.
  intros Hs Ha. destruct a; [..|by apply chat_ok_receive].
  all: unfold act; apply wp_exec; wp_client; close_chat.
Qed.

(** The page as reached from a load with any stored token, by actions
    whose server events carry socket ids. *)
Definition creachable (stored : option string) (s : cstate) : Prop :=
  rtc (fun s s' => exists a, action_ok a /\ s' = act a s) (init_client stored) s.

Lemma creachable_act_all stored s l :
  creachable stored s -> Forall action_ok l -> creachable stored (act_all l s).
Proof.
  revert s. induction l as [|a l IH]; intros s Hs Hl; [done|].
  inversion Hl as [|? ? Ha Hl']; subst. cbn [act_all foldl]. apply IH; [|done].
  eapply rtc_r; [exact Hs|]. by exists a.
Qed.

Lemma chat_ok_init stored : chat_ok (init_client stored).
Proof. split_and!; [apply active_ok_public|constructor..]. Qed.

Lemma chat_ok_reachable stored s : creachable stored s -> chat_ok s.
Proof.
  apply (rtc_invariant _ chat_ok); [|apply chat_ok_init].
  intros s1 s2 Hs (a & Ha & ->). by apply chat_ok_act.
Qed.

Lemma send_completes s : chat_ok s -> exists s' a, sendMessage s = (s', Ok a).
Proof.
  intros Hs. apply wp_no_throw. wp_client; try done.
  all: unfold chat_ok in *; simpl_client; destruct_and?.
  all: match goal with H : active_ok _ _ _, E : currentChat _ = PrivateChat |- _ =>
         destruct (H E) as (a & c & Ha & Hc & _) end.
  all: rewrite Ha in *; cbn [key_of] in *; unfold JsObject.lookup in *; rewrite Hc in *;
    discriminate.
Qed.


(** ** Properties *)

(** C16: on every page state reached by the user's actions and events
    whose socket ids are real ids, the private mode always has its
    conversation: [activePrivateSocketId] names an own entry of
    [privateChats], and that conversation has no unread message. *)
Theorem open_chat_ready stored s :
  creachable stored s -> currentChat s = PrivateChat ->
  exists a c, activePrivateSocketId s = Some a /\
    JsObject.get_own a (privateChats s) = Some c /\ pc_unread c = 0.
Proof. intros Hr. exact (proj1 (chat_ok_reachable stored s Hr)). Qed.

(** C17: on every reached page state, [sendMessage] completes without
    an exception (line 161 reads [privateChats[activePrivateSocketId]]
    only when that conversation exists). *)
Theorem send_never_throws stored s :
  creachable stored s -> exists s' a, sendMessage s = (s', Ok a).
Proof. intros Hr. apply send_completes, (chat_ok_reachable stored s Hr). Qed.

(** [sendMessage] in the public conversation. *)
Lemma send_public s :
  currentChat s = PublicChat -> nonempty (msgInput s) = true ->
  sendMessage s =
  (set_msgInput (fun _ => "")
     (set_messagesHTML (fun h => (h ++ paragraph "You" (msgInput s))%string)
        (set_sent (fun l => l ++ [PublicMessage (msgInput s)]) s)), Ok tt).
Proof.
  intros Hc Hm. unfold sendMessage, emit. cbv [mbind M_bind hget hmodify mret M_ret].
  rewrite Hm, Hc. reflexivity.
Qed.

(** A public message is shown only when it is not from the page's own
    name (line 113). *)
Lemma public_message_own s from m :
  uval_eqb from (myUsername s) = true -> on_public_message_c from m s = (s, Ok tt).
Proof.
  intros He. unfold on_public_message_c. cbv [mbind M_bind hget mret M_ret].
  rewrite He. by destruct (currentChat s).
Qed.

Lemma uval_eqb_refl v : uval_eqb v v = true.
Proof. destruct v; cbn; auto using String.eqb_refl. Qed.

(** C18: the sender's own public message is shown once: [sendMessage]
    appends a "You" paragraph and emits the message, and the server's
    echo (from the sender's own name) is not shown again. *)
Theorem self_echo_shown_once s u m :
  currentChat s = PublicChat -> myUsername s = UStr u -> msgInput s = m -> nonempty m = true ->
  let s' := act_all [ASend; AReceive (EvPublicMessage (UStr u) m)] s in
  messagesHTML s' = (messagesHTML s ++ paragraph "You" m)%string /\
  sent s' = sent s ++ [PublicMessage m] /\ msgInput s' = "".
Proof.
  intros Hc Hu <- Hne. cbn [act_all foldl]. unfold act, exec. cbn [handle on_server_event].
  rewrite send_public by done. cbn [fst]. rewrite public_message_own.
  - done.
  - rewrite <- Hu. apply uval_eqb_refl.
Qed.

(** C20: the token of a [login_success] is kept in [localStorage], and
    after a reload the page's first connection replays it as
    [auto_login] (lines 26, 34-38, 70). *)
Theorem token_replayed_after_reload s u t :
  nonempty t = true ->
  let s1 := act (AReceive (EvLoginSuccess u t)) s in
  storage s1 = Some t /\ sent (act AConnect (init_client (storage s1))) = [AutoLogin t].
Proof.
  intros Ht. cbv zeta.
  assert (Hs : storage (act (AReceive (EvLoginSuccess u t)) s) = Some t) by reflexivity.
  split; [exact Hs|]. rewrite Hs. unfold act, exec, handle, on_connect, emit.
  cbv [mbind M_bind hget hmodify mret M_ret]. cbn -[nonempty]. by rewrite Ht.
Qed.

(** C19: a private message for a conversation that is not open is
    appended to it and counted as unread, and the message area is left
    alone (lines 133-142). *)
Theorem private_message_unread s k c from m :
  not_proto k -> JsObject.get_own k (privateChats s) = Some c ->
  viewing (currentChat s) (activePrivateSocketId s) k = false ->
  let s' := act (AReceive (EvPrivateMessage from m k)) s in
  JsObject.get_own k (privateChats s') =
    Some (mkChat (pc_username c) (pc_messages c ++ [(from, m)]) (S (pc_unread c)) (pc_socketId c)) /\
  messagesHTML s' = messagesHTML s.
Proof.
  intros Hk Hc Hv s'. unfold s', act. apply wp_exec. wp_client; client_facts;
    rewrite ?JsObject.set_set, ?JsObject.get_own_set_eq; try congruence.
  rewrite Hc in E0. injection E0 as <-. split; reflexivity.
Qed.

(** The second tab of the [two_tabs] run: the page that auto-logged in
    as alice with her stored token. *)
Definition tabB : cstate :=
  act (AReceive (EvLoginSuccess (UStr "alice") (Hex.new_token Scenario.bytesA)))
    (init_client (Some (Hex.new_token Scenario.bytesA))).

(** C29: with two connections bound to alice ([auto_login] in a second
    tab), a public message sent from the first tab reaches the second
    tab's socket as a message from alice, and the second page drops it
    as its own echo: a user's tabs do not see each other's messages. *)
Theorem second_tab_hides_messages :
  let w := deliver sidA (PublicMessage "hi") Scenario.two_tabs in
  @reachable Credentials.demo_hasher Scenario.users0 w /\
  In (sidB, EvPublicMessage (UStr "alice") "hi") (outbox w) /\
  messagesHTML (act (AReceive (EvPublicMessage (UStr "alice") "hi")) tabB) = messagesHTML tabB.
Proof.
  cbv zeta. split; [apply reachable_deliver; [exact Scenario.two_tabs_reachable|vm_compute; tauto]|].
  split; vm_compute; [tauto|reflexivity].
Qed.

(** ** The server's events carry socket ids *)

Definition entries_ok (o : JsObject.obj entry) : Prop :=
  Forall (fun kv => not_proto (socketId kv.2)) o.

Definition outbox_ok (o : list (string * sevent)) : Prop := Forall (fun p => ev_ok p.2) o.

Lemma socket_id_not_proto sid : socket_id_ok sid = true -> not_proto sid.
Proof. unfold socket_id_ok, not_proto. intros [_ H]%andb_true_iff. by apply negb_true_iff. Qed.

Lemma wf_conn_not_proto w sid : wf w -> In sid (conns w) -> not_proto sid.
Proof.
  intros (_ & _ & Hok & _) Hin. apply socket_id_not_proto.
  exact (proj1 (List.Forall_forall _ _) Hok sid Hin).
Qed.

Lemma entries_ok_set o k x v :
  entries_ok o -> not_proto x -> entries_ok (JsObject.set k (mkEntry x v) o).
Proof. intros H Hx. by apply JsObject.Forall_set. Qed.

Lemma entries_ok_get o k e : entries_ok o -> JsObject.get_own k o = Some e -> not_proto (socketId e).
Proof. intros H Hk. exact (JsObject.get_own_Forall _ _ _ _ H Hk). Qed.

Lemma entries_ok_delete o k : entries_ok o -> entries_ok (JsObject.delete k o).
Proof. apply JsObject.Forall_delete. Qed.

Lemma presence_ev_ok o : entries_ok o -> ev_ok (EvOnlineUsers (JsObject.values o)).
Proof. apply (JsObject.values_Forall (fun u => not_proto (socketId u))). Qed.

Lemma outbox_ok_emit o c ev : outbox_ok o -> ev_ok ev -> outbox_ok (o ++ [(c, ev)]).
Proof. intros H Hev. apply Forall_app. split; [done|]. by constructor. Qed.

Lemma outbox_ok_map o cs ev :
  outbox_ok o -> ev_ok ev -> outbox_ok (o ++ map (fun c => (c, ev)) cs).
Proof.
  intros H Hev. apply Forall_app. split; [done|]. apply Forall_map.
  apply List.Forall_forall. done.
Qed.

Create HintDb events.
#[export] Hint Resolve entries_ok_set entries_ok_delete presence_ev_ok outbox_ok_emit
  outbox_ok_map entries_ok_get : events.
#[export] Hint Extern 1 (ev_ok _) => exact I : events.

Definition events_ok (w : world) : Prop := entries_ok (onlineUsers w) /\ outbox_ok (outbox w).

Ltac close_events :=
  unfold events_ok in *; simpl_world; destruct_and?;
  repeat match goal with
  | E : JsObject.lookup _ _ = JsObject.Own _ |- _ => apply JsObject.lookup_Own in E
  end;
  split; eauto 6 with events.

Lemma deliver_events_ok w sid ev :
  wf w -> In sid (conns w) -> events_ok w -> events_ok (deliver sid ev w).
Proof.
  intros Hwf Hin Hi. pose proof (wf_conn_not_proto w sid Hwf Hin) as Hs.
  unfold deliver. start_run. destruct ev; wp_server; close_events.
Qed.

Lemma resume_at_events_ok `{Credentials.Hasher} n i w : events_ok w -> events_ok (resume_at n i w).
Proof.
  intros Hi. unfold resume_at. destruct (nth_error (pending w) n) as [t|]; [|done].
  start_run. destruct t; wp_server; close_events.
Qed.

Lemma events_step `{Credentials.Hasher} w w' :
  wf w /\ events_ok w -> w ~> w' -> wf w' /\ events_ok w'.
Proof.
  intros [Hwf Hi] Hs. split; [by apply (wf_step w w')|]. destruct Hs as [l Hs]. destruct Hs.
  - split; [apply entries_ok_set; [apply Hi|by apply socket_id_not_proto]|apply Hi].
  - unfold disconnect. start_run. wp_server; close_events.
  - by apply deliver_events_ok.
  - by apply resume_at_events_ok.
Qed.

(** In every reachable server state, every event written to a
    socket carries socket ids only ([online_users] entries and the
    sender of a [private_message]): the server's events are the events
    the page properties above assume. *)
Theorem server_events_carry_ids `{Credentials.Hasher} users0 w :
  reachable users0 w -> Forall (fun p => ev_ok p.2) (outbox w).
Proof.
  intros Hr. refine (proj2 (proj2 (rtc_invariant step (fun w => wf w /\ events_ok w)
                      (init_world users0) w events_step _ Hr))).
  split; [apply wf_init|]. split; constructor.
Qed.

(** ** The online list of a page *)

Lemma online_users_list s us :
  usersList (act (AReceive (EvOnlineUsers us)) s) = map user_item (List.filter (listed (myUsername s)) us).
Proof. reflexivity. Qed.

Lemma filter_listed me us :
  List.filter (listed me) us =
  List.filter (fun u => negb (uval_eqb (username u) me)) (List.filter Presence.bound us).
Proof.
  induction us as [|u us IH]; [done|]. cbn. unfold listed at 1, Presence.bound at 1.
  destruct (truthy (username u)); cbn; [destruct (negb _); cbn|]; by rewrite IH.
Qed.

(** C15: the page of a connected socket that has received the server's
    latest [online_users] list shows exactly the users bound now, other
    than its own name, up to order (spec P2 as the user sees it). *)
Theorem page_lists_online_users `{Credentials.Hasher} users0 w c l s :
  reachable users0 w -> In c (conns w) -> Presence.last_presence c (outbox w) = Some l ->
  usersList (act (AReceive (EvOnlineUsers l)) s) ≡ₚ
  map user_item (List.filter (fun u => negb (uval_eqb (username u) (myUsername s)))
                   (Presence.view (onlineUsers w))).
Proof.
  intros Hr Hc Hl. rewrite online_users_list, filter_listed.
  apply Permutation_map, List_filter_perm. exact (Presence.presence_reachable users0 w Hr c l Hc Hl).
Qed.

(** ** Witnesses *)

(** A page that received alice and bob in the online list and opened
    the conversation with alice. *)
Definition page_open : cstate :=
  act_all [AReceive (EvOnlineUsers [mkEntry sidA (UStr "alice"); mkEntry sidB (UStr "bob")]);
           AClickUser 0; AType "hello"] (init_client None).

Lemma page_lists_online_users_witness :
  @reachable Credentials.demo_hasher Scenario.users0 Scenario.s_alice /\
  In sidA (conns Scenario.s_alice) /\
  Presence.last_presence sidA (outbox Scenario.s_alice) = Some [mkEntry sidA (UStr "alice")] /\
  usersList (act (AReceive (EvOnlineUsers [mkEntry sidA (UStr "alice")])) (init_client None)) ≡ₚ
  map user_item (List.filter (fun u => negb (uval_eqb (username u) (myUsername (init_client None))))
                   (Presence.view (onlineUsers Scenario.s_alice))).
Proof.
  assert (Hc : In sidA (conns Scenario.s_alice)) by (vm_compute; tauto).
  assert (Hl : Presence.last_presence sidA (outbox Scenario.s_alice) = Some [mkEntry sidA (UStr "alice")])
    by (vm_compute; reflexivity).
  split; [exact Scenario.s_alice_reachable|]. split; [exact Hc|]. split; [exact Hl|].
  exact (page_lists_online_users _ _ _ _ (init_client None) Scenario.s_alice_reachable Hc Hl).
Defined.

Lemma page_open_reachable : creachable None page_open.
Proof.
  apply creachable_act_all; [apply rtc_refl|].
  repeat constructor; cbn; vm_compute; reflexivity.
Qed.

Lemma open_chat_ready_witness :
  creachable None page_open /\ currentChat page_open = PrivateChat /\
  exists a c, activePrivateSocketId page_open = Some a /\
    JsObject.get_own a (privateChats page_open) = Some c /\ pc_unread c = 0.
Proof.
  split; [exact page_open_reachable|]. split; [vm_compute; reflexivity|].
  apply (open_chat_ready None); [exact page_open_reachable|vm_compute; reflexivity].
Defined.

Lemma send_never_throws_witness :
  creachable None page_open /\ exists s' a, sendMessage page_open = (s', Ok a).
Proof.
  split; [exact page_open_reachable|]. exact (send_never_throws None page_open page_open_reachable).
Defined.

Definition page_public : cstate :=
  act_all [AReceive (EvLoginSuccess (UStr "alice") "t0"); AType "hi"] (init_client None).

Lemma self_echo_shown_once_witness :
  currentChat page_public = PublicChat /\ myUsername page_public = UStr "alice" /\
  msgInput page_public = "hi" /\ nonempty "hi" = true /\
  let s' := act_all [ASend; AReceive (EvPublicMessage (UStr "alice") "hi")] page_public in
  messagesHTML s' = (messagesHTML page_public ++ paragraph "You" "hi")%string /\
  sent s' = sent page_public ++ [PublicMessage "hi"] /\ msgInput s' = "".
Proof.
  split; [reflexivity|]. split; [reflexivity|]. split; [reflexivity|]. split; [reflexivity|].
  exact (self_echo_shown_once page_public "alice" "hi" eq_refl eq_refl eq_refl eq_refl).
Defined.

Lemma token_replayed_after_reload_witness :
  nonempty "t0" = true /\
  let s1 := act (AReceive (EvLoginSuccess (UStr "alice") "t0")) (init_client None) in
  storage s1 = Some "t0"%string /\ sent (act AConnect (init_client (storage s1))) = [AutoLogin "t0"].
Proof.
  split; [reflexivity|]. exact (token_replayed_after_reload (init_client None) (UStr "alice") "t0" eq_refl).
Defined.

(** [page_open] after bob wrote to it: bob's conversation has one unread
    message. *)
Definition page_bob : cstate := act (AReceive (EvPrivateMessage (UStr "bob") "yo" sidB)) page_open.

Definition chat_bob : pchat := mkChat (UStr "bob") [(UStr "bob", "yo"%string)] 1 sidB.

Lemma private_message_unread_witness :
  not_proto sidB /\ JsObject.get_own sidB (privateChats page_bob) = Some chat_bob /\
  viewing (currentChat page_bob) (activePrivateSocketId page_bob) sidB = false /\
  let s' := act (AReceive (EvPrivateMessage (UStr "bob") "again" sidB)) page_bob in
  JsObject.get_own sidB (privateChats s') =
    Some (mkChat (pc_username chat_bob) (pc_messages chat_bob ++ [(UStr "bob", "again"%string)])
            (S (pc_unread chat_bob)) (pc_socketId chat_bob)) /\
  messagesHTML s' = messagesHTML page_bob.
Proof.
  assert (H1 : not_proto sidB) by reflexivity.
  assert (H2 : JsObject.get_own sidB (privateChats page_bob) = Some chat_bob) by (vm_compute; reflexivity).
  assert (H3 : viewing (currentChat page_bob) (activePrivateSocketId page_bob) sidB = false)
    by (vm_compute; reflexivity).
  split; [exact H1|]. split; [exact H2|]. split; [exact H3|].
  exact (private_message_unread page_bob sidB chat_bob (UStr "bob") "again" H1 H2 H3).
Defined.

End ClientProps.
